(** * webviewBrige.contribution.ts: the message-centre client and its command router

    A shallow embedding of
    [src/vs/workbench/contrib/webviewBrige/browser/webviewBrige.contribution.ts]:

    - [Endpoint]: the module-level constants [port] and [url];
    - the class [MessageCenterClient] ([connect] with its four socket
      handlers, [send], [registerCallback]) as programs of a state-and-exception
      monad over a world that holds the client object, the sockets the client
      created, the pending timers and the console;
    - the listener that [WebviewBrigeContribution.init] registers and the three
      actions it starts ([openFile], [changeTheme], [changeLanguage]).

    What the file takes from the platform ([JSON.parse], [JSON.stringify], the
    user-agent string, the [WebSocket] constructor's argument check, the
    workbench services) is an interface here; [Fixture] gives one instance on
    which the model runs. *)

From Stdlib Require Import ZArith String Ascii List Lia Bool DecimalString.
From Stdlib Require Import DecimalPos.
From stdpp Require Import base list strings.

Open Scope string_scope.
Set Warnings "-register-all".

(** ** Values shared by both classes *)

(** What a [throw] carries.  [UserError] stands for any value thrown by code
    outside this file (a listener, a service). *)
Inductive Exn : Type :=
| TypeError (what : string)
| SyntaxError (what : string)
| InvalidStateError
| UserError (what : string).

(** The outcome of running a piece of JavaScript: a value, or a thrown one. *)
Inductive Result (A : Type) : Type :=
| Ok (a : A)
| Throw (e : Exn).
Arguments Ok {A} a.
Arguments Throw {A} e.

(** A JavaScript value as far as the router looks at one: what [JSON.parse]
    can produce, and [undefined], which reading a missing property yields.
    The router compares strings only; a number is carried, never inspected, and
    its carrier here is [Z].  An object is its list of own properties, read
    first binding first. *)
Inductive JsVal : Type :=
| JUndefined
| JNull
| JBool (b : bool)
| JNum (n : Z)
| JStr (s : string)
| JArr (items : list JsVal)
| JObj (props : list (string * JsVal)).

(** ** The endpoint: [port] and [url] (source lines 16-19) *)

Module Endpoint.

(** A number as [parseInt] returns one on the captures the regular
    expression can produce: an integer or [NaN].  (The integer is exact
    where the source's double is, below 2^53.) *)
Inductive Number : Type :=
| NaN
| Int (z : Z).

(** [\d] *)
Definition is_digit (c : ascii) : bool :=
  (48 <=? nat_of_ascii c)%nat && (nat_of_ascii c <=? 57)%nat.

(** The capture group, zero or more [\d], greedy: the longest run of digits
    the text starts with. *)
Fixpoint digits_prefix (s : string) : string :=
  match s with
  | String c s' => if is_digit c then String c (digits_prefix s') else EmptyString
  | EmptyString => EmptyString
  end.

(** The text after [p] when [s] starts with [p]. *)
Fixpoint strip_prefix (p s : string) : option string :=
  match p, s with
  | EmptyString, _ => Some s
  | String a p', String b s' => if Ascii.eqb a b then strip_prefix p' s' else None
  | String _ _, EmptyString => None
  end.

(** [navigator.userAgent.match(...)] with the source's pattern, [port\/]
    followed by the capture group: the match at the leftmost place where
    [port/] stands.  The result is [port[1]], or [None] for [null]. *)
Fixpoint match_port (ua : string) : option string :=
  match strip_prefix "port/" ua with
  | Some rest => Some (digits_prefix rest)
  | None =>
      match ua with
      | String _ ua' => match_port ua'
      | EmptyString => None
      end
  end.

Definition digit_value (c : ascii) : Z := Z.of_nat (nat_of_ascii c) - 48.

(** The value of a run of digits read after the value [acc]. *)
Fixpoint read_digits (acc : Z) (s : string) : Z :=
  match s with
  | String c s' => if is_digit c then read_digits (10 * acc + digit_value c) s' else acc
  | EmptyString => acc
  end.

Definition is_space (c : ascii) : bool :=
  let n := nat_of_ascii c in
  ((9 <=? n)%nat && (n <=? 13)%nat) || (n =? 32)%nat.

Fixpoint skip_spaces (s : string) : string :=
  match s with
  | String c s' => if is_space c then skip_spaces s' else s
  | EmptyString => EmptyString
  end.

(** The digits of [parseInt]: none gives [NaN]. *)
Definition parse_digits (s : string) : Number :=
  match s with
  | String c _ => if is_digit c then Int (read_digits 0 s) else NaN
  | EmptyString => NaN
  end.

Definition negate (n : Number) : Number :=
  match n with
  | NaN => NaN
  | Int z => Int (- z)
  end.

(** [parseInt(s, 10)]: leading (ASCII) white space, an optional sign, then
    the longest run of decimal digits; [NaN] when there is no digit. *)
Definition parseInt (s : string) : Number :=
  match skip_spaces s with
  | String "-" s' => negate (parse_digits s')
  | String "+" s' => parse_digits s'
  | s' => parse_digits s'
  end.

(** A number inside a template literal: [NaN], or the decimal digits (as
    the source prints an integer below 10^21). *)
Definition to_string (n : Number) : string :=
  match n with
  | NaN => "NaN"
  | Int z => NilZero.string_of_int (Z.to_int z)
  end.

(** [port] (line 18), for the user agent [ua]. *)
Definition port (ua : string) : option string := match_port ua.

(** [port ? parseInt(port[1], 10) : 9974] *)
Definition port_number (ua : string) : Number :=
  match port ua with
  | Some capture => parseInt capture
  | None => Int 9974
  end.

(** [url] (line 19): [`ws://127.0.0.1:${...}`] *)
Definition url (ua : string) : string :=
  "ws://127.0.0.1:" ++ to_string (port_number ua).

End Endpoint.

(** ** The world the client runs in *)

(** What the file writes with [console.error], one constructor for each place
    it does so. *)
Inductive LogEntry : Type :=
| TokenFailure                                (* 'Failed to get message token.' *)
| CallbackError (e : Exn)                     (* 'Error in message callback:', e *)
| ParseFailure (e : Exn)                      (* 'Failed to parse message:', e *)
| WebSocketError (ev : Exn)                   (* 'WebSocket error:', error *)
| OpenFailed (filePath : JsVal) (e : Exn)     (* `Failed to open ${filePath} :`, e *)
| ThemeNotFound (settingsId : string)         (* `Failed to find theme ${settingsId}` *)
| LocaleFailed (locale : string) (e : Exn).   (* `Failed to set locale to ${locale}:`, e *)

(** What the file takes from the platform it runs on. *)
Class Platform : Type := {
  (** a message: a JSON-serializable value, opaque to the client; values on
      which [JSON.stringify] throws (a cycle, a [BigInt]) are no messages *)
  Message : Type;
  JSON_stringify : Message -> string;
  (** [JSON.parse] returns the value or throws a [SyntaxError] *)
  JSON_parse : string -> Result Message;
  (** [navigator.userAgent] *)
  userAgent : string;
  (** whether [new WebSocket(url, protocol)] takes its arguments; it throws a
      [SyntaxError] otherwise *)
  WebSocket_accepts : string -> string -> bool;
  (** everything outside the client that a listener can act upon *)
  Ext : Type
}.

Inductive ReadyState : Type := CONNECTING | OPEN | CLOSING | CLOSED.

Definition is_OPEN (r : ReadyState) : bool :=
  match r with
  | OPEN => true
  | _ => false
  end.

(** A socket the client created, with the frames handed to it for
    transmission, oldest first. *)
Record WebSocket : Type := {
  ws_url : string;
  ws_protocol : string;
  readyState : ReadyState;
  ws_sent : list string
}.

Definition with_readyState (r : ReadyState) (s : WebSocket) : WebSocket :=
  {| ws_url := ws_url s; ws_protocol := ws_protocol s;
     readyState := r; ws_sent := ws_sent s |}.

Definition with_frame (frame : string) (s : WebSocket) : WebSocket :=
  {| ws_url := ws_url s; ws_protocol := ws_protocol s;
     readyState := readyState s; ws_sent := ws_sent s ++ [frame] |}.

(** What a timer or a [load] listener of the file runs: always [this.connect()]. *)
Inductive Task : Type := CallConnect.

Section World.
Context `{Platform}.

(** One run of a listener: how it ended, the outside it left behind and
    what it logged.  [cb.call(this, msg)] gives the listener the client as
    [this]; the listeners of the model leave it alone, as the one of [init]
    does, an arrow function that never sees it. *)
Record CbRun : Type := {
  cb_result : Result unit;
  cb_ext : Ext;
  cb_logs : list LogEntry
}.

Definition MessageCallback : Type := Message -> Ext -> CbRun.

(** An argument of [registerCallback]: a function ([typeof] gives
    ['function']) or any other value. *)
Inductive Arg : Type :=
| Fn (f : MessageCallback)
| NotFn (v : JsVal).

Definition is_function (a : Arg) : bool :=
  match a with
  | Fn _ => true
  | NotFn _ => false
  end.

(** The fields of a [MessageCenterClient].  [_ws] names a socket by its
    index in the world's [sockets]. *)
Record Client : Type := {
  _protocol : string;
  _ws : option nat;
  _msgQueue : list Message;
  _callback : list Arg
}.

Record World : Type := {
  this : Client;
  sockets : list WebSocket;
  (** pending [setTimeout] calls: delay in milliseconds and task *)
  timers : list (nat * Task);
  (** listeners of the window's [load] event *)
  onload : list Task;
  console : list LogEntry;
  (** which listener was called with which message, oldest first *)
  calls : list (nat * Message);
  ext : Ext
}.

Definition with_this (c : Client) (w : World) : World :=
  {| this := c; sockets := sockets w; timers := timers w; onload := onload w;
     console := console w; calls := calls w; ext := ext w |}.
Definition with_sockets (ss : list WebSocket) (w : World) : World :=
  {| this := this w; sockets := ss; timers := timers w; onload := onload w;
     console := console w; calls := calls w; ext := ext w |}.
Definition with_timers (ts : list (nat * Task)) (w : World) : World :=
  {| this := this w; sockets := sockets w; timers := ts; onload := onload w;
     console := console w; calls := calls w; ext := ext w |}.
Definition with_onload (ts : list Task) (w : World) : World :=
  {| this := this w; sockets := sockets w; timers := timers w; onload := ts;
     console := console w; calls := calls w; ext := ext w |}.
Definition with_console (c : list LogEntry) (w : World) : World :=
  {| this := this w; sockets := sockets w; timers := timers w; onload := onload w;
     console := c; calls := calls w; ext := ext w |}.
Definition with_calls (c : list (nat * Message)) (w : World) : World :=
  {| this := this w; sockets := sockets w; timers := timers w; onload := onload w;
     console := console w; calls := c; ext := ext w |}.
Definition with_ext (x : Ext) (w : World) : World :=
  {| this := this w; sockets := sockets w; timers := timers w; onload := onload w;
     console := console w; calls := calls w; ext := x |}.

Definition with_ws (h : option nat) (c : Client) : Client :=
  {| _protocol := _protocol c; _ws := h; _msgQueue := _msgQueue c;
     _callback := _callback c |}.
Definition with_msgQueue (q : list Message) (c : Client) : Client :=
  {| _protocol := _protocol c; _ws := _ws c; _msgQueue := q;
     _callback := _callback c |}.
Definition with_callback (l : list Arg) (c : Client) : Client :=
  {| _protocol := _protocol c; _ws := _ws c; _msgQueue := _msgQueue c;
     _callback := l |}.

(** *** Programs: state and exceptions

    A program changes the world and returns or throws; what it changed
    before it threw stays changed. *)
Definition M (A : Type) : Type := World -> Result A * World.

Definition ret {A} (a : A) : M A := fun w => (Ok a, w).

Definition bind {A B} (m : M A) (k : A -> M B) : M B :=
  fun w =>
    match m w with
    | (Ok a, w') => k a w'
    | (Throw e, w') => (Throw e, w')
    end.

Definition throw {A} (e : Exn) : M A := fun w => (Throw e, w).

(** [try { m } catch (e) { handler e }] *)
Definition try_catch {A} (m : M A) (handler : Exn -> M A) : M A :=
  fun w =>
    match m w with
    | (Ok a, w') => (Ok a, w')
    | (Throw e, w') => handler e w'
    end.

Definition lift {A} (r : Result A) : M A := fun w => (r, w).
Definition gets {A} (f : World -> A) : M A := fun w => (Ok (f w), w).
Definition modify (f : World -> World) : M unit := fun w => (Ok tt, f w).

Definition exec {A} (m : M A) (w : World) : World := snd (m w).
Definition outcome {A} (m : M A) (w : World) : Result A := fst (m w).

End World.

Declare Scope js_scope.
Delimit Scope js_scope with js.
Notation "x <- m ;; k" := (bind m (fun x => k))
  (at level 100, m at next level, right associativity) : js_scope.
Notation "m ;; k" := (bind m (fun _ => k))
  (at level 100, right associativity) : js_scope.
Open Scope js_scope.

(** ** [MessageCenterClient] (source lines 27-119) *)

Section MessageCenterClient.
Context `{Platform}.

(** The module-level constant [url] (line 19). *)
Definition url : string := Endpoint.url userAgent.

(** *** The platform's operations on the world *)

Definition console_error (entry : LogEntry) : M unit :=
  modify (fun w => with_console (console w ++ [entry]) w).

(** [setTimeout(() => { this.connect(); }, delay)] *)
Definition setTimeout (task : Task) (delay : nat) : M unit :=
  modify (fun w => with_timers (timers w ++ [(delay, task)]) w).

(** [globalThis.addEventListener('load', ...)] *)
Definition addLoadListener (task : Task) : M unit :=
  modify (fun w => with_onload (onload w ++ [task]) w).

(** [new WebSocket(url, protocol)]: a socket in state [CONNECTING], named by
    its index, or the constructor's [SyntaxError]. *)
Definition new_WebSocket (u protocol : string) : M nat :=
  if WebSocket_accepts u protocol then
    sid <- gets (fun w => length (sockets w)) ;;
    modify (fun w => with_sockets (sockets w ++
      [{| ws_url := u; ws_protocol := protocol;
          readyState := CONNECTING; ws_sent := [] |}]) w) ;;
    ret sid
  else throw (SyntaxError "WebSocket").

(** [ws.readyState] *)
Definition ws_readyState (sid : nat) : M ReadyState :=
  gets (fun w =>
    match sockets w !! sid with
    | Some s => readyState s
    | None => CLOSED
    end).

(** [ws.send(frame)]: a socket that is still connecting throws, an open one
    takes the frame, a closing or closed one discards it.  (The socket's
    buffer is taken to be large enough: sending does not close it.) *)
Definition ws_send (sid : nat) (frame : string) : M unit :=
  r <- ws_readyState sid ;;
  match r with
  | CONNECTING => throw InvalidStateError
  | OPEN => modify (fun w => with_sockets (alter (with_frame frame) sid (sockets w)) w)
  | CLOSING | CLOSED => ret tt
  end.

(** [list.forEach(f)]: in order, and a throwing [f] ends the loop. *)
Fixpoint forEach {A} (l : list A) (f : A -> M unit) : M unit :=
  match l with
  | [] => ret tt
  | x :: l' => f x ;; forEach l' f
  end.

(** [forEach] for a callback that is told the index, which starts at [i]. *)
Fixpoint forEach_from {A} (i : nat) (l : list A) (f : nat -> A -> M unit) : M unit :=
  match l with
  | [] => ret tt
  | x :: l' => f i x ;; forEach_from (S i) l' f
  end.

(** [cb.call(this, msg)] for the listener at index [i]: a function runs on the
    outside world, and what it logs goes to the console; calling anything else
    is a [TypeError]. *)
Definition call (i : nat) (cb : Arg) (msg : Message) : M unit :=
  match cb with
  | Fn f =>
      modify (fun w => with_calls (calls w ++ [(i, msg)]) w) ;;
      r <- gets (fun w => f msg (ext w)) ;;
      modify (fun w => with_console (console w ++ cb_logs r) (with_ext (cb_ext r) w)) ;;
      lift (cb_result r)
  | NotFn _ => throw (TypeError "cb.call is not a function")
  end.

(** *** The methods *)

(** [send(msg)] (lines 105-112) *)
Definition send (msg : Message) : M unit :=
  ws <- gets (fun w => _ws (this w)) ;;
  match ws with
  | Some sid =>
      r <- ws_readyState sid ;;
      if is_OPEN r then ws_send sid (JSON_stringify msg)
      else modify (fun w => with_this (with_msgQueue (_msgQueue (this w) ++ [msg]) (this w)) w)
  | None =>
      modify (fun w => with_this (with_msgQueue (_msgQueue (this w) ++ [msg]) (this w)) w)
  end.

(** [registerCallback(callback)] (lines 114-118) *)
Definition registerCallback (callback : Arg) : M unit :=
  if is_function callback then
    modify (fun w => with_this (with_callback (_callback (this w) ++ [callback]) (this w)) w)
  else ret tt.

(** [connect()] (lines 50-103), [e] being what [prompt('GET_MESSAGE_TOKEN')]
    returned.  The four handlers it puts on the new socket are [onopen],
    [onclose], [onmessage] and [onerror] below. *)
Definition connect (e : option string) : M unit :=
  match e with
  | None => console_error TokenFailure
  | Some token =>
      protocol <- gets (fun w => _protocol (this w)) ;;
      let subProtocol := protocol ++ "#" ++ token ++ "#" in
      sid <- new_WebSocket url subProtocol ;;
      modify (fun w => with_this (with_ws (Some sid) (this w)) w)
  end.

(** [this._ws.onopen] (lines 64-71) *)
Definition onopen : M unit :=
  msgQueue <- gets (fun w => _msgQueue (this w)) ;;
  modify (fun w => with_this (with_msgQueue [] (this w)) w) ;;
  forEach msgQueue send.

(** [this._ws.onclose] (lines 73-80) *)
Definition onclose : M unit :=
  modify (fun w => with_this (with_ws None (this w)) w) ;;
  setTimeout CallConnect 1000.

(** [this._ws.onmessage] (lines 82-98), [data] being [event.data] *)
Definition onmessage (data : string) : M unit :=
  try_catch
    (msg <- lift (JSON_parse data) ;;
     callbacks <- gets (fun w => _callback (this w)) ;;
     forEach_from 0 callbacks (fun i cb =>
       try_catch (call i cb msg)
                 (fun e => console_error (CallbackError e))))
    (fun e => console_error (ParseFailure e)).

(** [this._ws.onerror] (lines 100-102) *)
Definition onerror (error : Exn) : M unit :=
  console_error (WebSocketError error).

(** [new MessageCenterClient(protocol)] (lines 33-48), [complete] telling
    whether [document.readyState] is ['complete']. *)
Definition new_client (protocol : string) (complete : bool) (x : Ext) : World :=
  let w0 := {| this := {| _protocol := protocol; _ws := None;
                          _msgQueue := []; _callback := [] |};
               sockets := []; timers := []; onload := [];
               console := []; calls := []; ext := x |} in
  if complete then exec (setTimeout CallConnect 0) w0
  else exec (addLoadListener CallConnect) w0.

(** *** What happens to a client: calls from its owner and events of the platform *)

Inductive Event : Type :=
| CallSend (msg : Message)
| CallRegister (callback : Arg)
| TimerFires (k : nat) (token : option string)
| LoadFires (token : option string)
| SocketOpens (sid : nat)
| SocketCloses (sid : nat)
| SocketErrors (sid : nat) (error : Exn)
| SocketMessage (sid : nat) (data : string).

Definition run_task (t : Task) (token : option string) : M unit :=
  match t with
  | CallConnect => connect token
  end.

Definition set_readyState (sid : nat) (r : ReadyState) : M unit :=
  modify (fun w => with_sockets (alter (with_readyState r) sid (sockets w)) w).

(** One turn of the event loop.  A timer that fires leaves the pending ones;
    the [load] event comes once; a socket opens from [CONNECTING], delivers
    frames while [OPEN], and closes once.  An event that cannot happen in the
    world is no event. *)
Definition step (ev : Event) : M unit :=
  match ev with
  | CallSend msg => send msg
  | CallRegister callback => registerCallback callback
  | TimerFires k token =>
      ts <- gets timers ;;
      match ts !! k with
      | Some (_, task) => modify (with_timers (delete k ts)) ;; run_task task token
      | None => ret tt
      end
  | LoadFires token =>
      ls <- gets onload ;;
      modify (with_onload []) ;;
      forEach ls (fun task => run_task task token)
  | SocketOpens sid =>
      r <- ws_readyState sid ;;
      match r with
      | CONNECTING => set_readyState sid OPEN ;; onopen
      | _ => ret tt
      end
  | SocketCloses sid =>
      present <- gets (fun w => bool_decide (sid < length (sockets w))) ;;
      r <- ws_readyState sid ;;
      match present, r with
      | true, (CONNECTING | OPEN | CLOSING) => set_readyState sid CLOSED ;; onclose
      | _, _ => ret tt
      end
  | SocketErrors sid error =>
      present <- gets (fun w => bool_decide (sid < length (sockets w))) ;;
      if present then onerror error else ret tt
  | SocketMessage sid data =>
      r <- ws_readyState sid ;;
      if is_OPEN r then onmessage data else ret tt
  end.

(** The connection is open: [this._ws && this._ws.readyState === WebSocket.OPEN]. *)
Definition is_open (w : World) : bool :=
  match _ws (this w) with
  | Some sid =>
      match sockets w !! sid with
      | Some s => is_OPEN (readyState s)
      | None => false
      end
  | None => false
  end.

End MessageCenterClient.

(** ** [WebviewBrigeContribution] (source lines 121-197) *)

(** How a promise ends. *)
Inductive Settled (A : Type) : Type :=
| Fulfilled (a : A)
| Rejected (e : Exn).
Arguments Fulfilled {A} a.
Arguments Rejected {A} e.

(** The four injected services and [URI.joinPath], as far as the file uses
    them.  A workspace folder is given by its [uri]. *)
Class Services : Type := {
  URI : Type;
  Theme : Type;
  settingsId : Theme -> string;
  (** [workspaceContextService.getWorkspace().folders] *)
  workspace_folders : list URI;
  (** [URI.joinPath(folderUri, filePath)] *)
  URI_joinPath : URI -> JsVal -> Result URI;
  (** [editorService.openEditor({ resource, options: { pinned } })] *)
  openEditor : URI -> bool -> Settled unit;
  (** [themeService.getColorThemes()] *)
  getColorThemes : Settled (list Theme);
  (** [themeService.setColorTheme(theme, target)] *)
  setColorTheme : Theme -> string -> Settled unit;
  (** [configurationService.updateValue(key, value)] *)
  updateValue : string -> string -> Settled unit
}.

Section WebviewBrigeContribution.
Context `{Services}.

(** What an action does to the outside, in order. *)
Inductive Effect : Type :=
| OpenEditor (resource : URI) (pinned : bool)
| GetColorThemes
| SetColorTheme (theme : Theme) (target : string)
| UpdateValue (key value : string)
| ConsoleError (entry : LogEntry).

(** One call of an [async] method run to its end: what it did, and how the
    promise it returned settled. *)
Record Async : Type := {
  effects : list Effect;
  settled : Settled unit
}.

(** [openFile(filePath)] (lines 159-171).  Reading [.uri] of
    [workspaceFolders[0]] and joining the path stand before the [try]. *)
Definition openFile (filePath : JsVal) : Async :=
  match workspace_folders with
  | [] =>
      {| effects := [];
         settled := Rejected (TypeError "Cannot read properties of undefined (reading 'uri')") |}
  | folderUri :: _ =>
      match URI_joinPath folderUri filePath with
      | Throw e => {| effects := []; settled := Rejected e |}
      | Ok fileUri =>
          match openEditor fileUri true with
          | Fulfilled _ =>
              {| effects := [OpenEditor fileUri true]; settled := Fulfilled tt |}
          | Rejected e =>
              {| effects := [OpenEditor fileUri true; ConsoleError (OpenFailed filePath e)];
                 settled := Fulfilled tt |}
          end
      end
  end.

(** [changeTheme(settingsId)] (lines 176-184) *)
Definition changeTheme (id : string) : Async :=
  match getColorThemes with
  | Rejected e => {| effects := [GetColorThemes]; settled := Rejected e |}
  | Fulfilled themes =>
      match find (fun theme => String.eqb (settingsId theme) id) themes with
      | Some theme =>
          {| effects := [GetColorThemes; SetColorTheme theme "auto"];
             settled := setColorTheme theme "auto" |}
      | None =>
          {| effects := [GetColorThemes; ConsoleError (ThemeNotFound id)];
             settled := Fulfilled tt |}
      end
  end.

(** [changeLanguage(locale)] (lines 190-196) *)
Definition changeLanguage (locale : string) : Async :=
  match updateValue "locale" locale with
  | Fulfilled _ =>
      {| effects := [UpdateValue "locale" locale]; settled := Fulfilled tt |}
  | Rejected e =>
      {| effects := [UpdateValue "locale" locale; ConsoleError (LocaleFailed locale e)];
         settled := Fulfilled tt |}
  end.

Fixpoint lookup_prop (key : string) (props : list (string * JsVal)) : JsVal :=
  match props with
  | [] => JUndefined
  | (k, v) :: rest => if String.eqb k key then v else lookup_prop key rest
  end.

(** [v.key] and the destructuring of [key] out of [v], for the three names the
    file reads ([command], [data], [filePath]), which only an object's own
    properties can define: [null] and [undefined] throw, an object gives its
    property, any other value gives [undefined]. *)
Definition get_prop (v : JsVal) (key : string) : Result JsVal :=
  match v with
  | JUndefined | JNull => Throw (TypeError "Cannot read properties of null or undefined")
  | JObj props => Ok (lookup_prop key props)
  | _ => Ok JUndefined
  end.

(** [v === 'text'] *)
Definition is_str (v : JsVal) (text : string) : bool :=
  match v with
  | JStr s => String.eqb s text
  | _ => false
  end.

(** One run of the listener: whether it returned or threw, and the actions it
    started.  It awaits none of them, so how their promises settle is nobody's
    to handle. *)
Record Handled : Type := {
  returned : Result unit;
  started : list Async
}.

(** The listener of [init] (lines 135-152): [({ command, data }) => { switch ... }] *)
Definition on_command (msg : JsVal) : Handled :=
  match get_prop msg "command", get_prop msg "data" with
  | Ok command, Ok data =>
      if is_str command "openFile" then
        match get_prop data "filePath" with
        | Ok filePath => {| returned := Ok tt; started := [openFile filePath] |}
        | Throw e => {| returned := Throw e; started := [] |}
        end
      else if is_str command "updateTheme" then
        let themeId :=
          if is_str data "theme-2" then "Visual Studio Light" else "Default Dark+" in
        {| returned := Ok tt; started := [changeTheme themeId] |}
      else if is_str command "updateLocale" then
        let locale := if is_str data "zh-CN" then "zh-CN" else "en" in
        {| returned := Ok tt; started := [changeLanguage locale] |}
      else {| returned := Ok tt; started := [] |}
  | Throw e, _ => {| returned := Throw e; started := [] |}
  | _, Throw e => {| returned := Throw e; started := [] |}
  end.

(** The promises nobody handles: the rejections among the started actions. *)
Definition unhandled_rejections (h : Handled) : list Exn :=
  flat_map (fun a => match settled a with
                     | Rejected e => [e]
                     | Fulfilled _ => []
                     end) (started h).

Definition logged (a : Async) : list LogEntry :=
  flat_map (fun eff => match eff with
                       | ConsoleError entry => [entry]
                       | _ => []
                       end) (effects a).

End WebviewBrigeContribution.

(** ** [init]: the contribution's client and its one listener *)

Section Init.
Context `{Services}.
Context (parse : string -> Result JsVal) (stringify : JsVal -> string)
        (agent : string) (accepts : string -> string -> bool).

(** The platform of the contribution: its messages are JavaScript values, and
    what its listener acts upon is the list of actions started so far. *)
Definition BrowserPlatform : Platform :=
  {| Message := JsVal;
     JSON_stringify := stringify;
     JSON_parse := parse;
     userAgent := agent;
     WebSocket_accepts := accepts;
     Ext := list Async |}.

(** The listener of [init] as the client calls it.  The actions it starts run
    on after it returned; with this one listener registered, what they log
    comes next on the console. *)
Definition listener : @MessageCallback BrowserPlatform :=
  fun msg actions =>
    let h := on_command msg in
    @Build_CbRun BrowserPlatform
      (returned h) (actions ++ started h)%list (flat_map logged (started h)).

(** [init()] (lines 133-153): [new MessageCenterClient('EXTENSION_EDITOR')],
    then [mc.registerCallback(...)]. *)
Definition init (complete : bool) : @World BrowserPlatform :=
  @exec BrowserPlatform unit (registerCallback (Fn listener))
    (@new_client BrowserPlatform "EXTENSION_EDITOR" complete (@nil Async)).

End Init.

(** ** Notions the properties are stated with *)

Section Notions.
Context `{Platform}.

(** The handle and the socket of an open connection. *)
Definition open_socket (w : World) : option (nat * WebSocket) :=
  match _ws (this w) with
  | Some sid =>
      match sockets w !! sid with
      | Some s => if is_OPEN (readyState s) then Some (sid, s) else None
      | None => None
      end
  | None => None
  end.

(** A socket that was handed the frames [fs] after those it had. *)
Definition with_frames (fs : list string) (s : WebSocket) : WebSocket :=
  {| ws_url := ws_url s; ws_protocol := ws_protocol s;
     readyState := readyState s; ws_sent := ws_sent s ++ fs |}.

(** The world with [msgs] put at the tail of the queue. *)
Definition enqueue (msgs : list Message) (w : World) : World :=
  with_this (with_msgQueue (_msgQueue (this w) ++ msgs) (this w)) w.

(** The world after [connect] made a socket with [token]: the new socket,
    still connecting, is the handle. *)
Definition connected (token : string) (w : World) : World :=
  with_this (with_ws (Some (length (sockets w))) (this w))
    (with_sockets (sockets w ++
       [{| ws_url := url; ws_protocol := _protocol (this w) ++ "#" ++ token ++ "#";
           readyState := CONNECTING; ws_sent := [] |}]) w).


(** What one call of the listener [f], at index [i], leaves behind: the call
    is on record, the outside is what [f] made of it, and the console has what
    [f] logged and then, if [f] threw, the line of the [catch]. *)
Definition after_call (i : nat) (f : MessageCallback) (msg : Message) (w : World) : World :=
  let r := f msg (ext w) in
  with_console
    (console w ++ cb_logs r ++
       match cb_result r with
       | Throw e => [CallbackError e]
       | Ok _ => []
       end)
    (with_ext (cb_ext r) (with_calls (calls w ++ [(i, msg)]) w)).

(** Every listener in turn, from index [i] on. *)
Fixpoint deliver (i : nat) (fs : list MessageCallback) (msg : Message) (w : World) : World :=
  match fs with
  | [] => w
  | f :: fs' => deliver (S i) fs' msg (after_call i f msg w)
  end.

(** The program leaves [field] of the world as it found it, however it ends. *)
Definition keeps {A B} (field : World -> B) (m : M A) : Prop :=
  forall w, field (exec m w) = field w.

(** The list of listeners. *)
Definition listeners_of (w : World) : list Arg := _callback (this w).

(** The worlds a client can be in: the one its constructor leaves, and
    those that turns of the event loop lead to. *)
Inductive reachable : World -> Prop :=
| reachable_new protocol complete x : reachable (new_client protocol complete x)
| reachable_step w ev : reachable w -> reachable (exec (step ev) w).

End Notions.

(** ** A fixture: one platform and its services

    An instance of the two interfaces, on which the model runs: JSON texts
    whose numbers are integers and whose strings have no escapes, a user-agent
    string with a port, the constructor's check of the subprotocol, and
    services that answer from a few switches. *)

Module Fixture.

(** The double quote. *)
Definition dq : string := String "034"%char EmptyString.

Definition quote (s : string) : string := dq ++ s ++ dq.

Fixpoint join (sep : string) (parts : list string) : string :=
  match parts with
  | [] => ""
  | [p] => p
  | p :: rest => p ++ sep ++ join sep rest
  end.

Definition hex_digit (n : nat) : ascii :=
  ascii_of_nat (if (n <? 10)%nat then 48 + n else 87 + n).

(** [JSON.stringify] on the characters of a string. *)
Fixpoint escape (s : string) : string :=
  match s with
  | EmptyString => ""
  | String c s' =>
      let n := nat_of_ascii c in
      (if (n =? 34)%nat then "\" ++ dq
       else if (n =? 92)%nat then "\\"
       else if (n =? 8)%nat then "\b"
       else if (n =? 9)%nat then "\t"
       else if (n =? 10)%nat then "\n"
       else if (n =? 12)%nat then "\f"
       else if (n =? 13)%nat then "\r"
       else if (n <? 32)%nat then
         "\u00" ++ String (hex_digit (n / 16)) (String (hex_digit (n mod 16)) "")
       else String c "") ++ escape s'
  end.

(** [JSON.stringify(v)]: the text, or [None] where the source's function
    returns [undefined].  Inside an array [undefined] is written [null];
    inside an object a property that holds it is left out. *)
Fixpoint stringify_value (v : JsVal) : option string :=
  match v with
  | JUndefined => None
  | JNull => Some "null"
  | JBool true => Some "true"
  | JBool false => Some "false"
  | JNum n => Some (NilZero.string_of_int (Z.to_int n))
  | JStr s => Some (quote (escape s))
  | JArr items =>
      Some ("[" ++ join "," (map (fun item => default "null" (stringify_value item)) items) ++ "]")
  | JObj props =>
      Some ("{" ++ join ","
              (flat_map (fun kv =>
                 match stringify_value (snd kv) with
                 | Some text => [quote (escape (fst kv)) ++ ":" ++ text]
                 | None => []
                 end) props) ++ "}")
  end.

(** What [ws.send(JSON.stringify(v))] hands over: the text, and the text
    [undefined] for the value [undefined]. *)
Definition stringify (v : JsVal) : string := default "undefined" (stringify_value v).

Definition is_ws (c : ascii) : bool :=
  let n := nat_of_ascii c in
  (n =? 32)%nat || (n =? 9)%nat || (n =? 10)%nat || (n =? 13)%nat.

Fixpoint skip_ws (s : string) : string :=
  match s with
  | String c s' => if is_ws c then skip_ws s' else s
  | EmptyString => EmptyString
  end.

(** The characters of a string literal up to its closing quote, and the rest.
    A backslash is outside the fixture's texts; a control character is not
    JSON. *)
Fixpoint string_body (s : string) : option (string * string) :=
  match s with
  | EmptyString => None
  | String c s' =>
      let n := nat_of_ascii c in
      if (n =? 34)%nat then Some ("", s')
      else if (n =? 92)%nat || (n <? 32)%nat then None
      else match string_body s' with
           | Some (body, rest) => Some (String c body, rest)
           | None => None
           end
  end.

Fixpoint drop_digits (s : string) : string :=
  match s with
  | String c s' => if Endpoint.is_digit c then drop_digits s' else s
  | EmptyString => EmptyString
  end.

(** An integer literal: digits without a leading zero, and no fraction or
    exponent behind them. *)
Definition natural (s : string) : option (Z * string) :=
  let ds := Endpoint.digits_prefix s in
  let rest := drop_digits s in
  match ds with
  | EmptyString => None
  | String "0" (String _ _) => None
  | _ =>
      match rest with
      | String "." _ | String "e" _ | String "E" _ => None
      | _ => Some (Endpoint.read_digits 0 ds, rest)
      end
  end.

(** Writing a property: over the one of that name, or behind the others. *)
Fixpoint set_prop (key : string) (v : JsVal) (props : list (string * JsVal)) :=
  match props with
  | [] => [(key, v)]
  | (k, old) :: rest =>
      if String.eqb k key then (k, v) :: rest else (k, old) :: set_prop key v rest
  end.

Fixpoint value (fuel : nat) (s : string) : option (JsVal * string) :=
  match fuel with
  | O => None
  | S fuel' =>
      match skip_ws s with
      | String "n" rest =>
          option_map (pair JNull) (Endpoint.strip_prefix "ull" rest)
      | String "t" rest =>
          option_map (pair (JBool true)) (Endpoint.strip_prefix "rue" rest)
      | String "f" rest =>
          option_map (pair (JBool false)) (Endpoint.strip_prefix "alse" rest)
      | String "034" rest =>
          match string_body rest with
          | Some (body, rest') => Some (JStr body, rest')
          | None => None
          end
      | String "-" rest =>
          match natural rest with
          | Some (n, rest') => Some (JNum (- n), rest')
          | None => None
          end
      | String "[" rest =>
          match skip_ws rest with
          | String "]" rest' => Some (JArr [], rest')
          | _ => items fuel' rest []
          end
      | String "{" rest =>
          match skip_ws rest with
          | String "}" rest' => Some (JObj [], rest')
          | _ => members fuel' rest []
          end
      | other =>
          match natural other with
          | Some (n, rest') => Some (JNum n, rest')
          | None => None
          end
      end
  end
with items (fuel : nat) (s : string) (acc : list JsVal) : option (JsVal * string) :=
  match fuel with
  | O => None
  | S fuel' =>
      match value fuel' s with
      | Some (v, rest) =>
          match skip_ws rest with
          | String "," rest' => items fuel' rest' (acc ++ [v])
          | String "]" rest' => Some (JArr (acc ++ [v]), rest')
          | _ => None
          end
      | None => None
      end
  end
with members (fuel : nat) (s : string) (acc : list (string * JsVal)) : option (JsVal * string) :=
  match fuel with
  | O => None
  | S fuel' =>
      match skip_ws s with
      | String "034" rest =>
          match string_body rest with
          | Some (key, rest1) =>
              match skip_ws rest1 with
              | String ":" rest2 =>
                  match value fuel' rest2 with
                  | Some (v, rest3) =>
                      match skip_ws rest3 with
                      | String "," rest4 => members fuel' rest4 (set_prop key v acc)
                      | String "}" rest4 => Some (JObj (set_prop key v acc), rest4)
                      | _ => None
                      end
                  | None => None
                  end
              | _ => None
              end
          | None => None
          end
      | _ => None
      end
  end.

(** [JSON.parse(text)] on the fixture's texts. *)
Definition parse (text : string) : Result JsVal :=
  match value (2 * String.length text + 2) text with
  | Some (v, rest) =>
      match skip_ws rest with
      | EmptyString => Ok v
      | _ => Throw (SyntaxError "Unexpected non-whitespace character after JSON")
      end
  | None => Throw (SyntaxError "Unexpected token")
  end.

(** The characters a subprotocol may have: visible ASCII but the separators. *)
Definition is_token_char (c : ascii) : bool :=
  let n := nat_of_ascii c in
  (33 <=? n)%nat && (n <=? 126)%nat &&
  negb (existsb (Nat.eqb n)
          [34; 40; 41; 44; 47; 58; 59; 60; 61; 62; 63; 64; 91; 92; 93; 123; 125]).

(** The port of a URL is a run of digits that names a port. *)
Definition port_ok (u : string) : bool :=
  match Endpoint.strip_prefix "ws://127.0.0.1:" u with
  | Some text =>
      negb (String.eqb text "") &&
      String.eqb (Endpoint.digits_prefix text) text &&
      (Endpoint.read_digits 0 text <=? 65535)%Z
  | None => false
  end.

(** [new WebSocket(url, protocol)] takes a URL with a port and a subprotocol
    that is a token. *)
Definition accepts (u protocol : string) : bool :=
  port_ok u && negb (String.eqb protocol "") &&
  forallb is_token_char (list_ascii_of_string protocol).

Definition agent : string :=
  "Mozilla/5.0 (X11; Linux x86_64) AppleWebKit/537.36 Chrome/120.0 port/8080".

(** Services over folders and themes named by strings.  The editor opens
    what it is asked to, or fails, as [editor_ok] says. *)
Definition services (folders : list string) (editor_ok : bool) : Services :=
  {| URI := string;
     Theme := string;
     settingsId := fun theme => theme;
     workspace_folders := folders;
     URI_joinPath := fun base path =>
       match path with
       | JStr relative => Ok (base ++ "/" ++ relative)
       | _ => Throw (TypeError "The path argument must be of type string")
       end;
     openEditor := fun _ _ =>
       if editor_ok then Fulfilled tt else Rejected (UserError "cannot open");
     getColorThemes := Fulfilled ["Default Dark+"; "Visual Studio Light"];
     setColorTheme := fun _ _ => Fulfilled tt;
     updateValue := fun _ _ => Fulfilled tt |}.

(** A workspace with one folder, and one with none. *)
Definition one_folder : Services := services ["file:///home/user/project"] true.
Definition no_folder : Services := services [] true.

Definition platform (sv : Services) (ua : string) : Platform :=
  @BrowserPlatform sv parse stringify ua accepts.

(** The platform of the scenarios. *)
Definition browser : Platform := platform one_folder agent.

(** A platform whose user agent has [port/] and no digit behind it. *)
Definition portless : Platform := platform one_folder "Mozilla/5.0 port/ Chrome/120.0".

(** A listener that throws whatever it is told. *)
Definition faulty : @MessageCallback browser :=
  fun _ actions =>
    @Build_CbRun browser (Throw (UserError "listener failed")) actions [].

(** The contribution's client when the document is complete: the listener is
    registered and the first [connect] is on the timers. *)
Definition booted : @World browser :=
  @init one_folder parse stringify agent accepts true.

(** The same client after the timer fired and the prompt gave a token. *)
Definition connecting : @World browser :=
  @exec browser unit (step (TimerFires 0 (Some "s3cr3t"))) booted.

(** The same client after the socket opened. *)
Definition opened : @World browser :=
  @exec browser unit (step (SocketOpens 0)) connecting.

(** A client with two listeners, the first of which throws. *)
Definition two_listeners : @World browser :=
  @exec browser unit
    (registerCallback (Fn (@listener one_folder parse stringify agent accepts)))
    (@exec browser unit (registerCallback (Fn faulty))
       (@new_client browser "EXTENSION_EDITOR" true (@nil (@Async one_folder)))).

(** The messages of the scenarios. *)
Definition msg_a : JsVal := JObj [("a", JNum 1)].
Definition msg_b : JsVal := JObj [("b", JNum 2)].
Definition theme_command (data : string) : JsVal :=
  JObj [("command", JStr "updateTheme"); ("data", JStr data)].
Definition open_command (path : string) : JsVal :=
  JObj [("command", JStr "openFile"); ("data", JObj [("filePath", JStr path)])].

End Fixture.

(** ** Notions for whole runs of a client *)

Section Runs.
Context `{Platform}.

(** The world after the events [evs], one turn of the event loop each. *)
Definition run (evs : list Event) (w : World) : World :=
  fold_left (fun w ev => exec (step ev) w) evs w.

(** The messages that the events hand to [send], in order. *)
Definition sent_messages (evs : list Event) : list Message :=
  flat_map (fun ev => match ev with
                      | CallSend msg => [msg]
                      | _ => []
                      end) evs.

(** An event of the platform, as opposed to a call from the client's owner. *)
Definition platform_event (ev : Event) : bool :=
  match ev with
  | CallSend _ | CallRegister _ => false
  | _ => true
  end.

(** What has gone to the wire, socket after socket in the order the client
    made them, followed by the texts of what still waits in the queue. *)
Definition wire (w : World) : list string :=
  flat_map ws_sent (sockets w) ++ map JSON_stringify (_msgQueue (this w)).

(** A socket that is not closed. *)
Definition live (s : WebSocket) : bool :=
  match readyState s with
  | CLOSED => false
  | _ => true
  end.

(** The calls of [connect] that are waiting: timers and [load] listeners. *)
Definition pending (w : World) : nat := length (timers w) + length (onload w).

(** One connection at a time: a waiting [connect] and a handle exclude each
    other and there is one of them at most; a socket that is not closed is
    the handle; the handle is the socket made last, connecting or open; and
    nothing waits in the queue while the connection is open. *)
Definition single_connection (w : World) : Prop :=
  pending w + match _ws (this w) with Some _ => 1 | None => 0 end <= 1 /\
  (forall i s, sockets w !! i = Some s -> live s = true -> _ws (this w) = Some i) /\
  (forall sid, _ws (this w) = Some sid ->
     S sid = length (sockets w) /\
     exists s, sockets w !! sid = Some s /\
               (readyState s = CONNECTING \/ readyState s = OPEN)) /\
  (is_open w = true -> _msgQueue (this w) = []).

(** A client that nothing will wake: no [connect] is waiting and no socket
    is left to close. *)
Definition idle (w : World) : Prop :=
  timers w = [] /\ onload w = [] /\ _ws (this w) = None /\
  Forall (fun s => readyState s = CLOSED) (sockets w).

(** Every socket goes to the one URL, with the client's protocol name and a
    token between two [#] as its subprotocol. *)
Definition fixed_endpoint (w : World) : Prop :=
  Forall (fun s => ws_url s = url /\
                   exists token, ws_protocol s = _protocol (this w) ++ "#" ++ token ++ "#")
         (sockets w).

(** What the client's methods do not touch while a frame is handled. *)
Definition core (w : World) : Client * list WebSocket * list (nat * Task) * list Task :=
  (this w, sockets w, timers w, onload w).

(** What a turn of the event loop that hands [added] to [send] keeps: one
    connection at a time, the order on the wire, and the one endpoint. *)
Definition in_order (added : list Message) (w w' : World) : Prop :=
  single_connection w' /\
  wire w' = (wire w ++ map JSON_stringify added)%list /\
  (fixed_endpoint w -> fixed_endpoint w').

End Runs.

(** ** Notions for the endpoint *)

(** The text [p] stands somewhere in [s]. *)
Definition occurs (p s : string) : Prop :=
  exists pre post, s = pre ++ p ++ post.

(** * Properties *)

(** ** The client *)

Section ClientFacts.
Context `{Platform}.

Lemma open_socket_is_open w :
  is_open w = match open_socket w with Some _ => true | None => false end.
Proof.
  unfold is_open, open_socket.
  destruct (_ws (this w)) as [sid|]; [|reflexivity].
  destruct (sockets w !! sid) as [s|]; [|reflexivity].
  destruct (is_OPEN (readyState s)); reflexivity.
Qed.

Lemma open_socket_Some w sid s :
  open_socket w = Some (sid, s) ->
  _ws (this w) = Some sid /\ sockets w !! sid = Some s /\ readyState s = OPEN.
Proof.
  unfold open_socket.
  destruct (_ws (this w)) as [i|]; [|discriminate].
  destruct (sockets w !! i) as [t|] eqn:E; [|discriminate].
  destruct (readyState t) eqn:R; simpl; try discriminate.
  intros [= <- <-]. auto.
Qed.

Lemma with_sockets_same (w : World) : with_sockets (sockets w) w = w.
Proof. destruct w; reflexivity. Qed.

Lemma with_frames_nil s : with_frames [] s = s.
Proof. destruct s; unfold with_frames; simpl. rewrite app_nil_r. reflexivity. Qed.

Lemma with_frames_cons f fs s :
  with_frames fs (with_frame f s) = with_frames (f :: fs) s.
Proof. unfold with_frames, with_frame; simpl. rewrite <- app_assoc. reflexivity. Qed.

(** Changing the socket at an index in place is writing the changed socket there. *)
Lemma alter_is_insert (f : WebSocket -> WebSocket) (l : list WebSocket) i s :
  l !! i = Some s -> alter f i l = <[i := f s]> l.
Proof.
  intros Hs. apply list_eq. intros j.
  destruct (decide (j = i)) as [->|Hne].
  - rewrite list_lookup_alter_eq, Hs. simpl.
    rewrite list_lookup_insert_eq; [reflexivity|]. eapply lookup_lt_Some; eassumption.
  - rewrite list_lookup_alter_ne, list_lookup_insert_ne by congruence. reflexivity.
Qed.

(** [send] on an open connection hands the frame to the socket. *)
Lemma send_open w sid s msg :
  open_socket w = Some (sid, s) ->
  send msg w = (Ok tt, with_sockets (<[sid := with_frame (JSON_stringify msg) s]> (sockets w)) w).
Proof.
  intros Ho. destruct (open_socket_Some _ _ _ Ho) as (Hh & Hs & Hr).
  unfold send, ws_send, ws_readyState, bind, gets, modify. cbn.
  rewrite Hh. cbn. rewrite Hs, Hr. cbn. rewrite Hs, Hr. cbn.
  rewrite (alter_is_insert _ _ _ _ Hs). reflexivity.
Qed.

(** [send] without an open connection puts the message at the tail of the queue. *)
Lemma send_closed w msg :
  open_socket w = None -> send msg w = (Ok tt, enqueue [msg] w).
Proof.
  unfold open_socket, send, ws_readyState, bind, gets, modify, enqueue. simpl.
  destruct (_ws (this w)) as [sid|]; [|reflexivity].
  destruct (sockets w !! sid) as [s|]; [|reflexivity].
  destruct (readyState s); simpl; try reflexivity. discriminate.
Qed.


(** Replaying a list of messages over an open connection hands their frames
    to the socket, one after the other. *)
Lemma forEach_send_open msgs : forall w sid s,
  open_socket w = Some (sid, s) ->
  forEach msgs send w =
  (Ok tt, with_sockets (<[sid := with_frames (map JSON_stringify msgs) s]> (sockets w)) w).
Proof.
  induction msgs as [|m msgs IH]; intros w sid s Ho.
  - simpl. unfold ret. destruct (open_socket_Some _ _ _ Ho) as (_ & Hs & _).
    rewrite with_frames_nil, list_insert_id, with_sockets_same by assumption.
    reflexivity.
  - destruct (open_socket_Some _ _ _ Ho) as (Hh & Hs & Hr).
    pose proof (lookup_lt_Some _ _ _ Hs) as Hlt.
    simpl. unfold bind at 1. rewrite (send_open _ _ _ _ Ho).
    erewrite IH.
    + simpl. rewrite list_insert_insert_eq, with_frames_cons. reflexivity.
    + unfold open_socket. simpl. rewrite Hh.
      rewrite list_lookup_insert_eq by assumption. simpl. rewrite Hr. reflexivity.
Qed.

(** Sending a list of messages without an open connection queues them all. *)
Lemma forEach_send_closed msgs : forall w,
  open_socket w = None -> forEach msgs send w = (Ok tt, enqueue msgs w).
Proof.
  induction msgs as [|m msgs IH]; intros w Hc.
  - simpl. unfold ret, enqueue. rewrite app_nil_r. destruct w as [[] ? ? ? ? ? ?]; reflexivity.
  - simpl. unfold bind at 1. rewrite (send_closed _ _ Hc). rewrite IH.
    + unfold enqueue. simpl. rewrite <- app_assoc. reflexivity.
    + revert Hc. unfold open_socket, enqueue. simpl. trivial.
Qed.

(** [connect] with a token the constructor takes: a new socket, still
    connecting, becomes the handle. *)
Lemma connect_token w token :
  WebSocket_accepts url (_protocol (this w) ++ "#" ++ token ++ "#") = true ->
  connect (Some token) w = (Ok tt, connected token w).
Proof.
  intros Ha. unfold connect, new_WebSocket, bind, gets, modify, ret. cbn.
  rewrite Ha. reflexivity.
Qed.


(** The socket behind the handle opens: the queue is emptied and its messages
    go out through that socket, oldest first. *)
Lemma open_replays w sid s :
  _ws (this w) = Some sid ->
  sockets w !! sid = Some s ->
  readyState s = CONNECTING ->
  step (SocketOpens sid) w =
  (Ok tt,
   with_this (with_msgQueue [] (this w))
     (with_sockets
        (<[sid := with_frames (map JSON_stringify (_msgQueue (this w)))
                    (with_readyState OPEN s)]> (sockets w)) w)).
Proof.
  intros Hh Hs Hr.
  pose proof (lookup_lt_Some _ _ _ Hs) as Hlt.
  unfold step, ws_readyState, set_readyState, onopen, bind at 1, gets at 1.
  rewrite Hs, Hr.
  unfold bind, gets, modify. cbn.
  erewrite forEach_send_open.
  - cbn. rewrite (alter_is_insert _ _ _ _ Hs), list_insert_insert_eq. reflexivity.
  - unfold open_socket. cbn. rewrite Hh, list_lookup_alter_eq, Hs. reflexivity.
Qed.

(** C1.  Messages sent while the connection is not open, before or after
    [connect] made the socket, wait in the queue behind those already there
    and nothing is transmitted; when the socket opens, the queue is replaced
    by an empty one and then the waiting messages are handed to the socket as
    their JSON texts, each once, in the order they were sent, and the queue
    is empty afterwards. *)
Theorem queued_messages_replayed_in_order
    (w : World) (before after : list Message) (token : string) :
  is_open w = false ->
  WebSocket_accepts url (_protocol (this w) ++ "#" ++ token ++ "#") = true ->
  let w1 := exec (forEach before send) w in
  let w2 := exec (connect (Some token)) w1 in
  let w3 := exec (forEach after send) w2 in
  let sid := length (sockets w) in
  let waiting := (_msgQueue (this w) ++ before ++ after)%list in
  let socket r frames :=
    {| ws_url := url; ws_protocol := _protocol (this w) ++ "#" ++ token ++ "#";
       readyState := r; ws_sent := frames |} in
  (_msgQueue (this w3) = waiting /\
   sockets w3 = (sockets w ++ [socket CONNECTING []])%list) /\
  onopen w3 = forEach waiting send (with_this (with_msgQueue [] (this w3)) w3) /\
  step (SocketOpens sid) w3 =
    (Ok tt,
     with_this (with_msgQueue [] (this w3))
       (with_sockets (sockets w ++ [socket OPEN (map JSON_stringify waiting)]) w3)).
Proof.
  intros Hc Ha w1 w2 w3 sid waiting socket.
  assert (Hn : open_socket w = None).
  { rewrite open_socket_is_open in Hc. destruct (open_socket w); [discriminate|reflexivity]. }
  assert (E1 : w1 = enqueue before w).
  { unfold w1, exec. rewrite forEach_send_closed by assumption. reflexivity. }
  assert (E2 : w2 = connected token w1).
  { unfold w2, exec. rewrite connect_token; [reflexivity|]. rewrite E1. exact Ha. }
  assert (Hl : sockets w2 !! sid = Some (socket CONNECTING [])).
  { rewrite E2, E1. cbn. apply list_lookup_middle. reflexivity. }
  assert (E3 : w3 = enqueue after w2).
  { unfold w3, exec. rewrite forEach_send_closed; [reflexivity|].
    unfold open_socket. rewrite E2 at 1. cbn. rewrite E1 at 1. cbn.
    fold sid. rewrite Hl. reflexivity. }
  assert (Hq : _msgQueue (this w3) = waiting).
  { rewrite E3, E2, E1. cbn. rewrite <- app_assoc. reflexivity. }
  assert (Hs : sockets w3 = (sockets w ++ [socket CONNECTING []])%list).
  { rewrite E3, E2, E1. reflexivity. }
  split; [split; assumption|]. split.
  - unfold onopen, bind, gets, modify. rewrite Hq. reflexivity.
  - rewrite (open_replays w3 sid (socket CONNECTING [])).
    + rewrite Hq, Hs. do 2 f_equal. f_equal.
      unfold sid. rewrite insert_app_r_alt, Nat.sub_diag by reflexivity. reflexivity.
    + rewrite E3, E2, E1. reflexivity.
    + rewrite E3. exact Hl.
    + reflexivity.
Qed.

End ClientFacts.

Section ClientClaims.
Context `{Platform}.

(** C2.  [send] returns normally in every world.  On an open connection the
    JSON text of the message is handed to the socket at once and the queue
    is left as it was; otherwise the message is put at the tail of the queue
    and no socket is touched. *)
Theorem send_transmits_or_queues (w : World) (msg : Message) :
  outcome (send msg) w = Ok tt /\
  match open_socket w with
  | Some (sid, s) =>
      is_open w = true /\
      exec (send msg) w =
        with_sockets (<[sid := with_frame (JSON_stringify msg) s]> (sockets w)) w /\
      _msgQueue (this (exec (send msg) w)) = _msgQueue (this w) /\
      ws_sent <$> sockets (exec (send msg) w) !! sid =
        Some (ws_sent s ++ [JSON_stringify msg])%list
  | None =>
      is_open w = false /\
      exec (send msg) w = enqueue [msg] w /\
      _msgQueue (this (exec (send msg) w)) = (_msgQueue (this w) ++ [msg])%list /\
      sockets (exec (send msg) w) = sockets w
  end.
Proof.
  unfold outcome, exec. rewrite open_socket_is_open.
  destruct (open_socket w) as [[sid s]|] eqn:Ho.
  - rewrite (send_open _ _ _ _ Ho). simpl.
    destruct (open_socket_Some _ _ _ Ho) as (_ & Hs & _).
    repeat split.
    rewrite list_lookup_insert_eq by (eapply lookup_lt_Some; eassumption).
    reflexivity.
  - rewrite (send_closed _ _ Ho). simpl. repeat split.
Qed.


(** C7.  [connect] when the prompt gave no token: one line on the console and
    nothing else.  The client's fields, the sockets and the timers are what
    they were, so no socket was made and no retry is pending because of it;
    when it was a timer that called, that timer is spent and none takes its
    place. *)
Theorem connect_without_token (w : World) (k : nat) :
  connect None w = (Ok tt, with_console (console w ++ [TokenFailure]) w) /\
  (let w' := exec (connect None) w in
   this w' = this w /\ sockets w' = sockets w /\ timers w' = timers w /\
   onload w' = onload w /\ calls w' = calls w /\ ext w' = ext w) /\
  step (TimerFires k None) w =
    (Ok tt,
     match timers w !! k with
     | Some _ => with_console (console w ++ [TokenFailure])
                   (with_timers (delete k (timers w)) w)
     | None => w
     end).
Proof.
  repeat split.
  unfold step, bind, gets, modify.
  destruct (timers w !! k) as [[delay []]|]; reflexivity.
Qed.

Lemma dispatch_delivers fs msg : forall i w,
  forEach_from i (map Fn fs) (fun i cb =>
    try_catch (call i cb msg) (fun e => console_error (CallbackError e))) w =
  (Ok tt, deliver i fs msg w).
Proof.
  induction fs as [|f fs IH]; intros i w; [reflexivity|].
  cbn [forEach_from map]. unfold bind at 1.
  assert (E : try_catch (call i (Fn f) msg)
                (fun e => console_error (CallbackError e)) w =
              (Ok tt, after_call i f msg w)).
  { unfold try_catch, call, bind, gets, modify, lift, console_error, after_call. cbn.
    destruct (cb_result (f msg (ext w))) as [[]|e]; cbn.
    - rewrite app_nil_r. reflexivity.
    - unfold modify. cbn. rewrite <- app_assoc. reflexivity. }
  rewrite E. apply IH.
Qed.

Lemma deliver_frame fs msg : forall i w,
  this (deliver i fs msg w) = this w /\
  sockets (deliver i fs msg w) = sockets w /\
  timers (deliver i fs msg w) = timers w /\
  onload (deliver i fs msg w) = onload w.
Proof.
  induction fs as [|f fs IH]; intros i w; [repeat split|].
  simpl. destruct (IH (S i) (after_call i f msg w)) as (? & ? & ? & ?).
  repeat split; assumption.
Qed.

Lemma deliver_calls fs msg : forall i w,
  calls (deliver i fs msg w) = (calls w ++ imap (fun k _ => (i + k, msg)) fs)%list.
Proof.
  induction fs as [|f fs IH]; intros i w.
  - simpl. rewrite app_nil_r. reflexivity.
  - simpl. rewrite IH. simpl. rewrite <- app_assoc. simpl.
    rewrite Nat.add_0_r. do 2 f_equal.
    apply imap_ext. intros k x _. simpl. f_equal. lia.
Qed.

(** The line of the [catch] is on the console for every listener that threw. *)
Lemma deliver_logs_throw fs msg : forall i w k f e,
  fs !! k = Some f ->
  cb_result (f msg (ext (deliver i (take k fs) msg w))) = Throw e ->
  CallbackError e ∈ console (deliver i fs msg w).
Proof.
  assert (Hmono : forall gs i w x, x ∈ console w -> x ∈ console (deliver i gs msg w)).
  { intros gs. induction gs as [|g gs IH]; intros i w x Hx; [exact Hx|].
    simpl. apply IH. unfold after_call. simpl. apply elem_of_app. left. exact Hx. }
  induction fs as [|g fs IH]; intros i w k f e Hk He; [discriminate|].
  destruct k as [|k]; simpl in *.
  - injection Hk as ->. apply Hmono. unfold after_call. simpl. rewrite He.
    rewrite !elem_of_app. right. right. apply list_elem_of_singleton. reflexivity.
  - eapply IH; eassumption.
Qed.


(** Registering listeners one after the other puts them at the end of the
    list in that order. *)
Lemma register_in_order fs : forall w,
  forEach (map Fn fs) registerCallback w =
  (Ok tt, with_this (with_callback (_callback (this w) ++ map Fn fs) (this w)) w).
Proof.
  induction fs as [|f fs IH]; intros w.
  - simpl. unfold ret. rewrite app_nil_r. destruct w as [[] ? ? ? ? ? ?]; reflexivity.
  - cbn [forEach map]. unfold bind at 1. unfold registerCallback at 1. cbn.
    rewrite IH. cbn. rewrite <- app_assoc. reflexivity.
Qed.

(** C5.  A frame whose text parses is delivered to every registered listener,
    in the order of registration and with the parsed message, within the
    handler; a listener that throws gets its exception logged and the next
    ones are called all the same; the handler returns normally and the
    client's fields (handle, queue, listeners), the sockets and the timers are
    what they were. *)
Theorem frame_delivered_to_every_listener
    (w : World) (data : string) (msg : Message) (listeners : list MessageCallback) :
  JSON_parse data = Ok msg ->
  _callback (this w) = map Fn listeners ->
  let w' := exec (onmessage data) w in
  onmessage data w = (Ok tt, deliver 0 listeners msg w) /\
  calls w' = (calls w ++ imap (fun i _ => (i, msg)) listeners)%list /\
  (forall k f e,
     listeners !! k = Some f ->
     cb_result (f msg (ext (deliver 0 (take k listeners) msg w))) = Throw e ->
     CallbackError e ∈ console w') /\
  this w' = this w /\ sockets w' = sockets w /\ timers w' = timers w /\
  onload w' = onload w.
Proof.
  intros Hp Hc w'.
  assert (E : onmessage data w = (Ok tt, deliver 0 listeners msg w)).
  { unfold onmessage. unfold try_catch at 1. unfold bind at 1. unfold lift.
    rewrite Hp. unfold bind at 1. unfold gets. cbv beta iota.
    rewrite Hc, dispatch_delivers. reflexivity. }
  assert (Ew : w' = deliver 0 listeners msg w) by (unfold w', exec; rewrite E; reflexivity).
  rewrite Ew. split; [exact E|]. split; [apply deliver_calls|].
  split; [intros k f e; apply deliver_logs_throw|].
  apply deliver_frame.
Qed.

(** C6.  A frame whose text does not parse: the handler logs the failure and
    returns normally; no listener is called, and the client's fields, the
    sockets, the timers and the outside are what they were. *)
Theorem malformed_frame_is_dropped (w : World) (data : string) (e : Exn) :
  JSON_parse data = Throw e ->
  let w' := exec (onmessage data) w in
  onmessage data w = (Ok tt, with_console (console w ++ [ParseFailure e]) w) /\
  calls w' = calls w /\ ext w' = ext w /\
  this w' = this w /\ sockets w' = sockets w /\ timers w' = timers w /\
  is_open w' = is_open w.
Proof.
  intros Hp w'.
  assert (E : onmessage data w = (Ok tt, with_console (console w ++ [ParseFailure e]) w)).
  { unfold onmessage, try_catch, bind at 1, lift. rewrite Hp. reflexivity. }
  unfold w', exec. rewrite E. repeat split.
Qed.

(** *** What no run of the client changes *)

Section Keeps.
Context {B : Type} (field : World -> B).

Lemma keeps_ret {A} (a : A) : keeps field (ret a).
Proof. intros w. reflexivity. Qed.

Lemma keeps_throw {A} e : keeps field (@throw _ A e).
Proof. intros w. reflexivity. Qed.

Lemma keeps_lift {A} (r : Result A) : keeps field (lift r).
Proof. intros w. reflexivity. Qed.

Lemma keeps_gets {A} (f : World -> A) : keeps field (gets f).
Proof. intros w. reflexivity. Qed.

Lemma keeps_modify f : (forall w, field (f w) = field w) -> keeps field (modify f).
Proof. intros Hf w. apply Hf. Qed.

Lemma keeps_bind {A C} (m : M A) (k : A -> M C) :
  keeps field m -> (forall a, keeps field (k a)) -> keeps field (a <- m ;; k a).
Proof.
  intros Hm Hk w. unfold exec, bind. specialize (Hm w). unfold exec in Hm.
  destruct (m w) as [[a|e] w1]; simpl in *.
  - rewrite <- Hm. apply Hk.
  - exact Hm.
Qed.

Lemma keeps_try_catch {A} (m : M A) handler :
  keeps field m -> (forall e, keeps field (handler e)) -> keeps field (try_catch m handler).
Proof.
  intros Hm Hh w. unfold exec, try_catch. specialize (Hm w). unfold exec in Hm.
  destruct (m w) as [[a|e] w1]; simpl in *.
  - exact Hm.
  - rewrite <- Hm. apply Hh.
Qed.

Lemma keeps_forEach {A} (l : list A) f :
  (forall x, keeps field (f x)) -> keeps field (forEach l f).
Proof.
  intros Hf. induction l as [|x l IH]; simpl.
  - apply keeps_ret.
  - apply keeps_bind; [apply Hf|intros _; exact IH].
Qed.

Lemma keeps_forEach_from {A} (l : list A) f : forall i,
  (forall i x, keeps field (f i x)) -> keeps field (forEach_from i l f).
Proof.
  induction l as [|x l IH]; intros i Hf; simpl.
  - apply keeps_ret.
  - apply keeps_bind; [apply Hf|intros _; apply IH, Hf].
Qed.

End Keeps.

Ltac keeps_step :=
  first
    [ apply keeps_ret | apply keeps_throw | apply keeps_lift | apply keeps_gets
    | apply keeps_bind; [|intros ?]
    | apply keeps_try_catch; [|intros ?]
    | apply keeps_forEach; intros ?
    | apply keeps_forEach_from; intros ? ?
    | apply keeps_modify; intros ?; reflexivity ].

Ltac keeps_auto :=
  repeat first
    [ solve [auto]
    | keeps_step
    | match goal with
      | |- keeps _ (match ?x with _ => _ end) => destruct x
      end ].

Lemma send_keeps_listeners msg : keeps listeners_of (send msg).
Proof. unfold send, ws_send, ws_readyState. keeps_auto. Qed.

Lemma connect_keeps_listeners token : keeps listeners_of (connect token).
Proof. unfold connect, new_WebSocket, console_error. keeps_auto. Qed.

Lemma onmessage_keeps_listeners data : keeps listeners_of (onmessage data).
Proof. unfold onmessage, console_error, call. keeps_auto. Qed.

(** One turn of the event loop leaves the listeners alone, but for a call of
    [registerCallback] with a function, which puts it at the end. *)
Lemma step_listeners ev w :
  listeners_of (exec (step ev) w) =
  (listeners_of w ++
     match ev with
     | CallRegister (Fn f) => [Fn f]
     | _ => []
     end)%list.
Proof.
  assert (K : forall m : M unit, keeps listeners_of m ->
              listeners_of (exec m w) = (listeners_of w ++ [])%list).
  { intros m Hm. rewrite app_nil_r. apply Hm. }
  pose proof send_keeps_listeners as Hsend.
  pose proof connect_keeps_listeners as Hconnect.
  pose proof onmessage_keeps_listeners as Hmessage.
  destruct ev as [msg|[f|v]|k token|token|sid|sid|sid error|sid data];
    try (apply K; clear K);
    try reflexivity;
    unfold step, registerCallback, run_task, set_readyState, onopen, onclose,
      onerror, setTimeout, console_error, ws_readyState;
    cbv beta iota; keeps_auto.
Qed.

(** The listeners of a reachable world are functions, in some order. *)
Lemma reachable_listeners w :
  reachable w -> exists fs : list MessageCallback, _callback (this w) = map Fn fs.
Proof.
  induction 1 as [protocol complete x|w ev _ [fs IH]].
  - exists []. destruct complete; reflexivity.
  - fold (listeners_of w) in IH. fold (listeners_of (exec (step ev) w)).
    rewrite step_listeners, IH.
    destruct ev as [|[f|v]| | | | | |];
      try (exists fs; rewrite app_nil_r; reflexivity).
    exists (fs ++ [f])%list. rewrite map_app. reflexivity.
Qed.

Lemma listeners_callable w :
  reachable w -> Forall (fun cb => is_function cb = true) (listeners_of w).
Proof.
  induction 1 as [protocol complete x|w ev _ IH].
  - destruct complete; constructor.
  - rewrite step_listeners. apply Forall_app. split; [exact IH|].
    destruct ev as [|[f|v]| | | | | |]; repeat constructor.
Qed.

(** C10.  [registerCallback] with a function puts it at the end of the list
    of listeners; with anything else it returns normally and leaves the world
    as it was.  So every listener of a client is a function, in every world
    the client can reach, and no turn of the event loop takes a listener away
    or moves one: the old list is the beginning of the new one. *)
Theorem registerCallback_only_functions :
  (forall w f,
     registerCallback (Fn f) w =
     (Ok tt, with_this (with_callback (_callback (this w) ++ [Fn f]) (this w)) w)) /\
  (forall w v, registerCallback (NotFn v) w = (Ok tt, w)) /\
  (forall w, reachable w ->
     Forall (fun cb => is_function cb = true) (_callback (this w))) /\
  (forall w ev, _callback (this w) `prefix_of` _callback (this (exec (step ev) w))).
Proof.
  split; [reflexivity|]. split; [reflexivity|]. split; [exact listeners_callable|].
  intros w ev. fold (listeners_of w) (listeners_of (exec (step ev) w)).
  rewrite step_listeners. apply prefix_app_r. reflexivity.
Qed.

End ClientClaims.

(** ** The endpoint *)

Section EndpointFacts.
Import Endpoint.

Lemma digit_is_plain c :
  is_digit c = true ->
  is_space c = false /\ c <> "-"%char /\ c <> "+"%char.
Proof.
  destruct c as [[] [] [] [] [] [] [] []]; vm_compute; intros; try discriminate;
    repeat split; discriminate.
Qed.

(** On a text that starts with a digit, [parseInt] reads its digits. *)
Lemma parseInt_digit c s :
  is_digit c = true -> parseInt (String c s) = Int (read_digits 0 (String c s)).
Proof.
  intros Hd. destruct (digit_is_plain c Hd) as (Hs & Hm & Hp).
  unfold parseInt. cbn [skip_spaces]. rewrite Hs.
  assert (E : parse_digits (String c s) = Int (read_digits 0 (String c s))).
  { unfold parse_digits. rewrite Hd. reflexivity. }
  destruct c as [[] [] [] [] [] [] [] []]; try exact E; congruence.
Qed.

(** What the pattern captures is a run of digits of the text. *)
Lemma match_port_capture ua : forall capture,
  match_port ua = Some capture -> exists rest, capture = digits_prefix rest.
Proof.
  induction ua as [|c ua IH]; intros capture.
  - discriminate.
  - cbn [match_port]. destruct (strip_prefix "port/" (String c ua)) as [rest|].
    + intros [= <-]. exists rest. reflexivity.
    + apply IH.
Qed.

(** The three ways the port comes out: the default when [port/] does not
    occur, [NaN] when no digit follows its leftmost occurrence, and the number
    the digits spell otherwise. *)
Lemma port_number_cases ua :
  port_number ua =
  match port ua with
  | None => Int 9974
  | Some EmptyString => NaN
  | Some capture => Int (read_digits 0 capture)
  end.
Proof.
  unfold port_number, port. destruct (match_port ua) as [capture|] eqn:E; [|reflexivity].
  destruct (match_port_capture _ _ E) as [rest ->].
  destruct rest as [|c rest]; [reflexivity|].
  cbn [digits_prefix]. destruct (is_digit c) eqn:Hd; [|reflexivity].
  apply parseInt_digit, Hd.
Qed.

Lemma match_port_here rest :
  match_port ("port/" ++ rest) = Some (digits_prefix rest).
Proof. reflexivity. Qed.

End EndpointFacts.

(** C4, where the code leaves it.  The pattern of the source takes zero or
    more digits, so it matches [port/] with no digit behind it; the capture is
    then empty, [parseInt] gives [NaN], and the URL ends in [NaN] where the
    default 9974 is due. *)
Theorem url_of_port_without_digits :
  let ua := "Mozilla/5.0 (X11; Linux x86_64) port/ Chrome/120.0" in
  Endpoint.port ua = Some "" /\
  Endpoint.port_number ua = Endpoint.NaN /\
  Endpoint.url ua = "ws://127.0.0.1:NaN".
Proof. repeat split. Qed.

Example url_with_port :
  Endpoint.url "Mozilla/5.0 port/8080 Safari" = "ws://127.0.0.1:8080".
Proof. reflexivity. Qed.

Example url_without_port :
  Endpoint.url "Mozilla/5.0 Safari" = "ws://127.0.0.1:9974".
Proof. reflexivity. Qed.

Example url_leftmost_match :
  Endpoint.url "support/ port/8080" = "ws://127.0.0.1:NaN".
Proof. reflexivity. Qed.

(** ** The router *)

Section RouterFacts.
Context `{Services}.

(** [openFile] with a folder in the workspace: the editor is asked for the
    joined path, pinned, and a refusal is logged. *)
Lemma openFile_in_folder folder others filePath fileUri :
  workspace_folders = folder :: others ->
  URI_joinPath folder filePath = Ok fileUri ->
  settled (openFile filePath) = Fulfilled tt /\
  effects (openFile filePath) =
    (OpenEditor fileUri true ::
       match openEditor fileUri true with
       | Fulfilled _ => []
       | Rejected e => [ConsoleError (OpenFailed filePath e)]
       end)%list.
Proof.
  intros Hf Hj. unfold openFile. rewrite Hf, Hj.
  destruct (openEditor fileUri true); split; reflexivity.
Qed.

(** [openFile] with no folder in the workspace: the promise is rejected
    before the [try], nothing is asked of the editor and nothing is logged. *)
Lemma openFile_no_folder filePath :
  workspace_folders = [] ->
  effects (openFile filePath) = [] /\
  exists e, settled (openFile filePath) = Rejected e.
Proof.
  intros Hf. unfold openFile. rewrite Hf. split; [reflexivity|]. eexists. reflexivity.
Qed.

(** [changeTheme] passes the theme of that identifier to the theme service. *)
Lemma changeTheme_applies id themes theme :
  getColorThemes = Fulfilled themes ->
  find (fun t => String.eqb (settingsId t) id) themes = Some theme ->
  effects (changeTheme id) = [GetColorThemes; SetColorTheme theme "auto"].
Proof. intros Hg Hf. unfold changeTheme. rewrite Hg, Hf. reflexivity. Qed.

Lemma is_str_true v text : is_str v text = true <-> v = JStr text.
Proof.
  destruct v; simpl; try (split; [discriminate|intros [=]]).
  rewrite String.eqb_eq. split; [intros ->; reflexivity|intros [= ->]; reflexivity].
Qed.

Lemma is_str_false v text : is_str v text = false <-> v <> JStr text.
Proof.
  rewrite <- is_str_true. destruct (is_str v text); split; congruence.
Qed.

(** C9.  A message whose [command] is ['updateTheme'] starts [changeTheme]
    and nothing else, with ['Visual Studio Light'] when its [data] is the
    string ['theme-2'] and with ['Default Dark+'] for any other [data]; a
    message whose [command] is none of the three the router knows starts
    nothing, logs nothing and throws nothing. *)
Theorem updateTheme_and_unknown_commands (msg command data : JsVal) :
  get_prop msg "command" = Ok command ->
  get_prop msg "data" = Ok data ->
  (command = JStr "updateTheme" ->
   exists themeId,
     on_command msg = {| returned := Ok tt; started := [changeTheme themeId] |} /\
     (data = JStr "theme-2" -> themeId = "Visual Studio Light") /\
     (data <> JStr "theme-2" -> themeId = "Default Dark+")) /\
  (command <> JStr "openFile" ->
   command <> JStr "updateTheme" ->
   command <> JStr "updateLocale" ->
   on_command msg = {| returned := Ok tt; started := [] |}).
Proof.
  intros Hc Hd. unfold on_command. rewrite Hc, Hd. split.
  - intros ->. simpl.
    exists (if is_str data "theme-2" then "Visual Studio Light" else "Default Dark+").
    split; [reflexivity|]. split.
    + intros ->. reflexivity.
    + intros Hn. apply is_str_false in Hn. rewrite Hn. reflexivity.
  - intros H1 H2 H3.
    apply is_str_false in H1, H2, H3. rewrite H1, H2, H3. reflexivity.
Qed.

End RouterFacts.

(** C8, where the code leaves it.  With no folder in the workspace,
    [openFile] fails on [workspaceFolders[0].uri], which stands before the
    [try]: the promise is rejected with a [TypeError], the listener that
    started it has returned and handles no rejection, the editor is not asked
    and nothing is logged. *)
Theorem openFile_without_workspace_folder :
  let h := @on_command Fixture.no_folder (Fixture.open_command "src/main.ts") in
  @openFile Fixture.no_folder (JStr "src/main.ts") =
    {| effects := [];
       settled := Rejected (TypeError "Cannot read properties of undefined (reading 'uri')") |} /\
  returned h = Ok tt /\
  started h = [@openFile Fixture.no_folder (JStr "src/main.ts")] /\
  flat_map logged (started h) = [] /\
  unhandled_rejections h =
    [TypeError "Cannot read properties of undefined (reading 'uri')"].
Proof. repeat split. Qed.

Example openFile_in_workspace :
  @openFile Fixture.one_folder (JStr "src/main.ts") =
    {| effects := [@OpenEditor Fixture.one_folder "file:///home/user/project/src/main.ts" true];
       settled := Fulfilled tt |}.
Proof. reflexivity. Qed.

Example openFile_editor_fails :
  let sv := Fixture.services ["file:///home/user/project"] false in
  @openFile sv (JStr "src/main.ts") =
    {| effects := [@OpenEditor sv "file:///home/user/project/src/main.ts" true;
                   ConsoleError (OpenFailed (JStr "src/main.ts") (UserError "cannot open"))];
       settled := Fulfilled tt |}.
Proof. reflexivity. Qed.

Example theme_2_is_light :
  started (@on_command Fixture.one_folder (Fixture.theme_command "theme-2")) =
    [@changeTheme Fixture.one_folder "Visual Studio Light"] /\
  effects (@changeTheme Fixture.one_folder "Visual Studio Light") =
    [GetColorThemes; @SetColorTheme Fixture.one_folder "Visual Studio Light" "auto"].
Proof. split; reflexivity. Qed.

Example other_theme_is_dark :
  started (@on_command Fixture.one_folder (Fixture.theme_command "anything-else")) =
    [@changeTheme Fixture.one_folder "Default Dark+"].
Proof. reflexivity. Qed.

Example null_message_throws :
  @on_command Fixture.one_folder JNull =
    {| returned := Throw (TypeError "Cannot read properties of null or undefined");
       started := [] |}.
Proof. reflexivity. Qed.

(** ** The model at work: the scenarios on the fixture *)

Section Scenarios.
Import Fixture.
#[local] Existing Instance browser.

(** Two messages queued while disconnected go out in that order when the
    socket opens, and the queue is empty afterwards. *)
Lemma queued_messages_replayed_in_order_witness :
  let w3 := @exec browser unit (connect (Some "s3cr3t"))
              (@exec browser unit (forEach [msg_a; msg_b] send) booted) in
  @is_open browser booted = false /\
  @_msgQueue browser (this w3) = [msg_a; msg_b] /\
  step (SocketOpens 0) w3 =
    (Ok tt,
     with_this (with_msgQueue [] (this w3))
       (with_sockets
          [{| ws_url := "ws://127.0.0.1:8080";
              ws_protocol := "EXTENSION_EDITOR#s3cr3t#";
              readyState := OPEN;
              ws_sent := ["{" ++ quote "a" ++ ":1}"; "{" ++ quote "b" ++ ":2}"] |}] w3)).
Proof.
  pose proof (@queued_messages_replayed_in_order browser booted [msg_a; msg_b] [] "s3cr3t"
                eq_refl eq_refl) as ((Hq & _) & _ & Ho).
  split; [reflexivity|]. split; [exact Hq|exact Ho].
Defined.



(** A command frame reaches both listeners, the first of which throws. *)
Lemma frame_delivered_to_every_listener_witness :
  let data := stringify (theme_command "theme-2") in
  let w' := @exec browser unit (onmessage data) two_listeners in
  JSON_parse data = Ok (theme_command "theme-2") /\
  calls w' = [(0, theme_command "theme-2"); (1, theme_command "theme-2")] /\
  console w' = [CallbackError (UserError "listener failed")] /\
  ext w' = [@changeTheme one_folder "Visual Studio Light"] /\
  this w' = this two_listeners.
Proof.
  pose proof (@frame_delivered_to_every_listener browser two_listeners
                (stringify (theme_command "theme-2")) (theme_command "theme-2")
                [faulty; @listener one_folder parse stringify agent accepts]
                eq_refl eq_refl) as (_ & Hc & _ & Ht & _).
  split; [reflexivity|]. split; [exact Hc|]. split; [reflexivity|].
  split; [reflexivity|exact Ht].
Defined.

(** A frame that is not JSON. *)
Lemma malformed_frame_is_dropped_witness :
  JSON_parse "oops" = Throw (SyntaxError "Unexpected token") /\
  @exec browser unit (onmessage "oops") opened =
    with_console [ParseFailure (SyntaxError "Unexpected token")] opened /\
  @is_open browser (exec (onmessage "oops") opened) = true.
Proof.
  pose proof (@malformed_frame_is_dropped browser opened "oops"
                (SyntaxError "Unexpected token") eq_refl) as (He & _ & _ & _ & _ & _ & Ho).
  split; [reflexivity|]. split.
  - unfold exec. rewrite He. reflexivity.
  - rewrite Ho. reflexivity.
Defined.

(** The two theme frames of the scenario. *)
Lemma updateTheme_and_unknown_commands_witness :
  exists themeId,
    @on_command one_folder (theme_command "theme-2") =
      {| returned := Ok tt; started := [@changeTheme one_folder themeId] |} /\
    themeId = "Visual Studio Light".
Proof.
  destruct (@updateTheme_and_unknown_commands one_folder (theme_command "theme-2")
              (JStr "updateTheme") (JStr "theme-2") eq_refl eq_refl) as (Ht & _).
  destruct (Ht eq_refl) as (themeId & Hc & Hl & _).
  exists themeId. split; [exact Hc|exact (Hl eq_refl)].
Defined.

(** The open client of the fixture is a world its client can reach, and its
    one listener is a function. *)
Lemma registerCallback_only_functions_witness :
  Forall (fun cb => @is_function browser cb = true) (@_callback browser (this opened)).
Proof.
  apply (proj1 (proj2 (proj2 (@registerCallback_only_functions browser)))).
  unfold opened, connecting, booted, init.
  apply reachable_step. apply reachable_step.
  apply (@reachable_step browser _ (CallRegister (Fn (@listener one_folder parse stringify agent accepts)))).
  apply reachable_new.
Defined.

(** A frame sent while open goes out at once; the queue stays empty. *)
Example send_while_open :
  let w' := @exec browser unit (send msg_a) opened in
  @_msgQueue browser (this w') = [] /\
  ws_sent <$> sockets w' !! 0 = Some ["{" ++ quote "a" ++ ":1}"].
Proof. split; reflexivity. Qed.

(** No token: the timer is spent, no socket is made, nothing is scheduled. *)
Example no_token_no_retry :
  let w' := @exec browser unit (step (TimerFires 0 None)) booted in
  @timers browser w' = [] /\ sockets w' = [] /\ console w' = [TokenFailure] /\
  @_ws browser (this w') = None.
Proof. repeat split. Qed.

(** Close, one second, a new token: the client is connecting again, on a
    second socket. *)
Example reconnect_after_close :
  let w1 := @exec browser unit (step (SocketCloses 0)) opened in
  let w2 := @exec browser unit (step (TimerFires 0 (Some "t2"))) w1 in
  @_ws browser (this w2) = Some 1 /\ @timers browser w2 = [] /\
  readyState <$> sockets w2 = [CLOSED; CONNECTING].
Proof. repeat split. Qed.

(** The theme frame of the scenario, from the wire to the theme service. *)
Example theme_frame_end_to_end :
  let frame := "{" ++ quote "command" ++ ":" ++ quote "updateTheme" ++ ","
                   ++ quote "data" ++ ":" ++ quote "theme-2" ++ "}" in
  let w' := @exec browser unit (step (SocketMessage 0 frame)) opened in
  flat_map effects (ext w') =
    [GetColorThemes; @SetColorTheme one_folder "Visual Studio Light" "auto"] /\
  console w' = [].
Proof. split; reflexivity. Qed.

(** Where the URL ends in [NaN] the constructor throws out of [connect]: the
    timer is spent, there is no socket and nothing is scheduled. *)
Example nan_port_never_connects :
  let w := @new_client portless "EXTENSION_EDITOR" true [] in
  @url portless = "ws://127.0.0.1:NaN" /\
  @step portless (TimerFires 0 (Some "s3cr3t")) w =
    (Throw (SyntaxError "WebSocket"), with_timers [] w).
Proof. split; reflexivity. Qed.

(** What the fixture reads back is what it wrote. *)
Example parse_stringify :
  parse (stringify (open_command "src/main.ts")) = Ok (open_command "src/main.ts") /\
  parse (stringify (JArr [JNull; JBool true; JNum (-12); JStr "x"; JObj []])) =
    Ok (JArr [JNull; JBool true; JNum (-12); JStr "x"; JObj []]) /\
  stringify msg_a = "{" ++ quote "a" ++ ":1}".
Proof. repeat split. Qed.

End Scenarios.

(** * Whole runs of the client *)

Section RunFacts.
Context `{Platform}.

Lemma run_app evs evs' w : run (evs ++ evs') w = run evs' (run evs w).
Proof. apply fold_left_app. Qed.

Lemma run_snoc evs ev w : run (evs ++ [ev]) w = exec (step ev) (run evs w).
Proof. rewrite run_app. reflexivity. Qed.

Lemma sent_messages_snoc evs ev :
  sent_messages (evs ++ [ev]) =
  (sent_messages evs ++ match ev with CallSend msg => [msg] | _ => [] end)%list.
Proof.
  unfold sent_messages. rewrite flat_map_app. simpl. rewrite app_nil_r. reflexivity.
Qed.

Lemma reachable_run evs : forall w, reachable w -> reachable (run evs w).
Proof.
  induction evs as [|ev evs IH]; intros w Hw; [exact Hw|].
  simpl. apply IH. apply reachable_step. exact Hw.
Qed.

Lemma reachable_is_run w :
  reachable w -> exists protocol complete x evs, w = run evs (new_client protocol complete x).
Proof.
  induction 1 as [protocol complete x|w ev _ (protocol & complete & x & evs & ->)].
  - exists protocol, complete, x, []. reflexivity.
  - exists protocol, complete, x, (evs ++ [ev])%list. rewrite run_snoc. reflexivity.
Qed.

(** *** What one turn of the event loop does *)

Lemma connect_cases w token :
  connect token w =
  match token with
  | None => (Ok tt, with_console (console w ++ [TokenFailure]) w)
  | Some t =>
      if WebSocket_accepts url (_protocol (this w) ++ "#" ++ t ++ "#")
      then (Ok tt, connected t w)
      else (Throw (SyntaxError "WebSocket"), w)
  end.
Proof.
  destruct token as [t|]; [|reflexivity].
  unfold connect, new_WebSocket, bind, gets, modify, ret, throw. cbn.
  destruct (WebSocket_accepts _ _); reflexivity.
Qed.

Lemma step_send w msg :
  exec (step (CallSend msg)) w =
  match open_socket w with
  | Some (sid, s) => with_sockets (<[sid := with_frame (JSON_stringify msg) s]> (sockets w)) w
  | None => enqueue [msg] w
  end.
Proof.
  unfold exec. cbn [step].
  destruct (open_socket w) as [[sid s]|] eqn:Ho.
  - rewrite (send_open _ _ _ _ Ho). reflexivity.
  - rewrite (send_closed _ _ Ho). reflexivity.
Qed.

Lemma step_register w callback :
  exec (step (CallRegister callback)) w =
  if is_function callback
  then with_this (with_callback (_callback (this w) ++ [callback]) (this w)) w
  else w.
Proof. unfold exec. cbn [step]. unfold registerCallback. destruct (is_function callback); reflexivity. Qed.

Lemma step_timer w k token :
  exec (step (TimerFires k token)) w =
  match timers w !! k with
  | Some _ => exec (connect token) (with_timers (delete k (timers w)) w)
  | None => w
  end.
Proof.
  unfold exec. cbn [step]. unfold bind, gets, modify.
  destruct (timers w !! k) as [[d []]|]; reflexivity.
Qed.

Lemma step_load w token :
  length (onload w) <= 1 ->
  exec (step (LoadFires token)) w =
  match onload w with
  | [] => with_onload [] w
  | _ => exec (connect token) (with_onload [] w)
  end.
Proof.
  intros Hl. unfold exec. cbn [step]. unfold bind at 1, gets at 1. unfold bind at 1, modify at 1.
  destruct (onload w) as [|[] [|t ts]]; simpl in Hl; try lia; [reflexivity|].
  cbn [forEach run_task]. unfold bind, ret.
  destruct (connect token (with_onload [] w)) as [[[]|e] w']; reflexivity.
Qed.

Lemma step_open w sid :
  exec (step (SocketOpens sid)) w =
  match sockets w !! sid with
  | Some s =>
      match readyState s with
      | CONNECTING => exec onopen (with_sockets (<[sid := with_readyState OPEN s]> (sockets w)) w)
      | _ => w
      end
  | None => w
  end.
Proof.
  unfold exec. cbn [step]. unfold ws_readyState, set_readyState, bind at 1, gets at 1.
  destruct (sockets w !! sid) as [s|] eqn:Hs; [|reflexivity].
  destruct (readyState s); try reflexivity.
  unfold bind at 1, modify at 1. rewrite (alter_is_insert _ _ _ _ Hs). reflexivity.
Qed.

Lemma step_close w sid :
  exec (step (SocketCloses sid)) w =
  match sockets w !! sid with
  | Some s =>
      if live s
      then with_timers (timers w ++ [(1000, CallConnect)])
             (with_this (with_ws None (this w))
                (with_sockets (<[sid := with_readyState CLOSED s]> (sockets w)) w))
      else w
  | None => w
  end.
Proof.
  unfold exec. cbn [step].
  unfold ws_readyState, set_readyState, onclose, setTimeout, bind, gets, modify, live.
  destruct (sockets w !! sid) as [s|] eqn:Hs.
  - rewrite bool_decide_eq_true_2 by (eapply lookup_lt_Some; eassumption).
    destruct (readyState s); cbn; try rewrite (alter_is_insert _ _ _ _ Hs); reflexivity.
  - destruct (bool_decide (sid < length (sockets w))); reflexivity.
Qed.

End RunFacts.

Ltac keeps_all :=
  repeat first
    [ solve [auto]
    | apply keeps_ret | apply keeps_throw | apply keeps_lift | apply keeps_gets
    | apply keeps_bind; [|intros ?]
    | apply keeps_try_catch; [|intros ?]
    | apply keeps_forEach; intros ?
    | apply keeps_forEach_from; intros ? ?
    | apply keeps_modify; intros ?; reflexivity
    | match goal with
      | |- keeps _ (match ?x with _ => _ end) => destruct x
      end ].

Section InvariantFacts.
Context `{Platform}.

Lemma onmessage_keeps_core data : keeps core (onmessage data).
Proof. unfold onmessage, console_error, call. keeps_all. Qed.

Lemma step_message_core w sid data : core (exec (step (SocketMessage sid data)) w) = core w.
Proof.
  pose proof onmessage_keeps_core as Hm.
  assert (K : keeps core (step (SocketMessage sid data))).
  { unfold step, ws_readyState. keeps_all. }
  apply K.
Qed.

Lemma step_error_core w sid error : core (exec (step (SocketErrors sid error)) w) = core w.
Proof.
  assert (K : keeps core (step (SocketErrors sid error))).
  { unfold step, onerror, console_error. keeps_all. }
  apply K.
Qed.

Lemma in_order_core w w' :
  core w' = core w -> single_connection w -> in_order [] w w'.
Proof.
  unfold core. intros [= Ht Hs Hti Ho] Hinv.
  unfold in_order, single_connection, wire, fixed_endpoint, pending, is_open in *.
  rewrite Ht, Hs, Hti, Ho, app_nil_r. auto.
Qed.

Lemma last_socket (l : list WebSocket) i s :
  l !! i = Some s -> S i = length l -> l = (take i l ++ [s])%list.
Proof.
  intros Hs Hl. rewrite <- (take_S_r _ _ _ Hs), Hl, firstn_all. reflexivity.
Qed.

Lemma insert_last_socket (l : list WebSocket) i s s' :
  l !! i = Some s -> S i = length l -> <[i := s']> l = (take i l ++ [s'])%list.
Proof.
  intros Hs Hl. rewrite (last_socket _ _ _ Hs Hl) at 1.
  assert (Hi : i = length (take i l)).
  { rewrite length_take. lia. }
  rewrite Hi at 1. rewrite insert_app_r_alt, Nat.sub_diag by lia. reflexivity.
Qed.

Lemma wire_insert_last (l : list WebSocket) i s s' fs :
  l !! i = Some s -> S i = length l -> ws_sent s' = (ws_sent s ++ fs)%list ->
  flat_map ws_sent (<[i := s']> l) = (flat_map ws_sent l ++ fs)%list.
Proof.
  intros Hs Hl Hf. rewrite (insert_last_socket _ _ _ _ Hs Hl).
  rewrite (last_socket _ _ _ Hs Hl) at 2.
  rewrite !flat_map_app. simpl. rewrite !app_nil_r, Hf, app_assoc. reflexivity.
Qed.

End InvariantFacts.

Section StepInOrder.
Context `{Platform}.

Ltac split_in_order :=
  unfold in_order, single_connection;
  split; [split; [|split; [|split]]|split].

Lemma in_order_send w msg :
  single_connection w -> in_order [msg] w (exec (step (CallSend msg)) w).
Proof.
  intros (Hp & Hl & Hh & Hq). rewrite step_send.
  destruct (open_socket w) as [[sid s]|] eqn:Ho.
  - destruct (open_socket_Some _ _ _ Ho) as (Hws & Hs & Hr).
    destruct (Hh _ Hws) as (Hlen & _).
    assert (Hopen : is_open w = true) by (rewrite open_socket_is_open, Ho; reflexivity).
    split_in_order.
    + exact Hp.
    + cbn. intros i t Hi Hlive.
      destruct (decide (i = sid)) as [->|Hne]; [exact Hws|].
      rewrite list_lookup_insert_ne in Hi by congruence. eauto.
    + cbn. intros sid' Hsid'. rewrite Hws in Hsid'. injection Hsid' as <-.
      rewrite length_insert. split; [exact Hlen|].
      exists (with_frame (JSON_stringify msg) s). split.
      * apply list_lookup_insert_eq. eapply lookup_lt_Some; eassumption.
      * right. exact Hr.
    + intros _. cbn. apply Hq, Hopen.
    + unfold wire. cbn. rewrite (Hq Hopen). cbn. rewrite !app_nil_r.
      apply (wire_insert_last _ _ s); auto.
    + unfold fixed_endpoint. cbn. intros Hf. apply Forall_insert; [exact Hf|].
      apply (proj1 (Forall_lookup _ _) Hf _ _ Hs).
  - split_in_order.
    + exact Hp.
    + exact Hl.
    + exact Hh.
    + intros Hopen. exfalso. revert Hopen. rewrite open_socket_is_open.
      unfold open_socket, enqueue. cbn. fold (open_socket w). rewrite Ho. discriminate.
    + unfold wire, enqueue. cbn. rewrite map_app, app_assoc. reflexivity.
    + auto.
Qed.

Lemma in_order_register w callback :
  single_connection w -> in_order [] w (exec (step (CallRegister callback)) w).
Proof.
  intros Hinv. rewrite step_register.
  destruct (is_function callback); [|apply in_order_core; [reflexivity|exact Hinv]].
  unfold in_order, single_connection, wire, fixed_endpoint, pending, is_open in *.
  cbn. rewrite app_nil_r. auto.
Qed.

(** [connect] when it is the one waiting call that runs: nothing else waits
    and there is no handle. *)
Lemma in_order_connect w token :
  single_connection w -> pending w = 0 -> _ws (this w) = None ->
  in_order [] w (exec (connect token) w).
Proof.
  intros Hinv Hp0 Hnone. unfold exec. rewrite connect_cases.
  destruct token as [t|]; [|apply in_order_core; [reflexivity|exact Hinv]].
  destruct (WebSocket_accepts _ _); [|apply in_order_core; [reflexivity|exact Hinv]].
  destruct Hinv as (Hp & Hl & Hh & Hq). cbn [snd].
  split_in_order.
  - unfold pending in *. cbn. lia.
  - cbn. intros i s Hi Hlive.
    apply lookup_app_Some in Hi as [Hi'|(Hge & Hi')].
    + specialize (Hl _ _ Hi' Hlive). congruence.
    + f_equal. apply lookup_lt_Some in Hi'. simpl in Hi'. lia.
  - cbn. intros sid [= <-]. rewrite length_app. simpl. split; [lia|].
    eexists. split.
    + apply list_lookup_middle. reflexivity.
    + left. reflexivity.
  - intros Hopen. exfalso. revert Hopen. unfold is_open. cbn.
    rewrite list_lookup_middle by reflexivity. discriminate.
  - unfold wire. cbn. rewrite flat_map_app. cbn. rewrite !app_nil_r. reflexivity.
  - unfold fixed_endpoint. cbn. intros Hf. apply Forall_app. split; [exact Hf|].
    repeat constructor. cbn. eexists. reflexivity.
Qed.

Lemma single_connection_no_handle w :
  single_connection w -> 1 <= pending w ->
  _ws (this w) = None /\ pending w = 1.
Proof.
  intros (Hp & _) Hge. destruct (_ws (this w)); [lia|]. split; [reflexivity|lia].
Qed.

Lemma in_order_timer w k token :
  single_connection w -> in_order [] w (exec (step (TimerFires k token)) w).
Proof.
  intros Hinv. rewrite step_timer.
  destruct (timers w !! k) as [t|] eqn:Hk; [|apply in_order_core; [reflexivity|exact Hinv]].
  pose proof (lookup_lt_Some _ _ _ Hk) as Hlt.
  destruct (single_connection_no_handle w Hinv) as (Hnone & Hp1).
  { unfold pending. lia. }
  assert (Hd : delete k (timers w) = []).
  { apply length_zero_iff_nil. rewrite length_delete by (eexists; exact Hk).
    unfold pending in Hp1. lia. }
  rewrite Hd.
  assert (Ho : onload w = []).
  { apply length_zero_iff_nil. unfold pending in Hp1. lia. }
  assert (Hinv0 : single_connection (with_timers [] w)).
  { destruct Hinv as (Hp & Hl & Hh & Hq).
    split; [|split; [|split]].
    - unfold pending. cbn. rewrite Ho, Hnone. cbn. lia.
    - exact Hl.
    - exact Hh.
    - exact Hq. }
  destruct (in_order_connect (with_timers [] w) token Hinv0) as (Hi1 & Hi2 & Hi3).
  - unfold pending. cbn. rewrite Ho. reflexivity.
  - exact Hnone.
  - split; [exact Hi1|]. split; [exact Hi2|exact Hi3].
Qed.

Lemma in_order_load w token :
  single_connection w -> in_order [] w (exec (step (LoadFires token)) w).
Proof.
  intros Hinv.
  assert (Hlen : length (onload w) <= 1).
  { destruct Hinv as (Hp & _). unfold pending in Hp. lia. }
  rewrite (step_load _ _ Hlen).
  destruct (onload w) as [|t ts] eqn:Ho.
  - apply in_order_core; [|exact Hinv]. unfold core. cbn. rewrite Ho. reflexivity.
  - destruct (single_connection_no_handle w Hinv) as (Hnone & Hp1).
    { unfold pending. rewrite Ho. simpl. lia. }
    assert (Ht : timers w = []).
    { apply length_zero_iff_nil. unfold pending in Hp1. rewrite Ho in Hp1. simpl in Hp1. lia. }
    assert (Hinv0 : single_connection (with_onload [] w)).
    { destruct Hinv as (Hp & Hl & Hh & Hq).
      split; [|split; [|split]].
      - unfold pending. cbn. rewrite Ht, Hnone. cbn. lia.
      - exact Hl.
      - exact Hh.
      - exact Hq. }
    destruct (in_order_connect (with_onload [] w) token Hinv0) as (Hi1 & Hi2 & Hi3).
    + unfold pending. cbn. rewrite Ht. reflexivity.
    + exact Hnone.
    + split; [exact Hi1|]. split; [exact Hi2|exact Hi3].
Qed.

End StepInOrder.

Section StepInOrder2.
Context `{Platform}.

Lemma in_order_open w sid :
  single_connection w -> in_order [] w (exec (step (SocketOpens sid)) w).
Proof.
  intros Hinv.
  destruct (sockets w !! sid) as [s|] eqn:Hs;
    [|apply in_order_core; [rewrite step_open, Hs; reflexivity|exact Hinv]].
  destruct (readyState s) eqn:Hr;
    try (apply in_order_core; [rewrite step_open, Hs, Hr; reflexivity|exact Hinv]).
  destruct Hinv as (Hp & Hl & Hh & Hq).
  assert (Hws : _ws (this w) = Some sid).
  { apply (Hl _ _ Hs). unfold live. rewrite Hr. reflexivity. }
  destruct (Hh _ Hws) as (Hlen & _).
  unfold exec. rewrite (open_replays _ _ _ Hws Hs Hr). cbn [snd].
  unfold in_order, single_connection.
  split; [split; [|split; [|split]]|split].
  - exact Hp.
  - cbn. intros i t Hi Hlive.
    destruct (decide (i = sid)) as [->|Hne]; [exact Hws|].
    rewrite list_lookup_insert_ne in Hi by congruence. eauto.
  - cbn. intros sid' Hsid'. rewrite Hws in Hsid'. injection Hsid' as <-.
    rewrite length_insert. split; [exact Hlen|].
    eexists. split.
    + apply list_lookup_insert_eq. eapply lookup_lt_Some; eassumption.
    + right. reflexivity.
  - intros _. reflexivity.
  - unfold wire. cbn. rewrite !app_nil_r.
    apply (wire_insert_last _ _ s); auto.
  - unfold fixed_endpoint. cbn. intros Hf. apply Forall_insert; [exact Hf|].
    apply (proj1 (Forall_lookup _ _) Hf _ _ Hs).
Qed.

Lemma in_order_close w sid :
  single_connection w -> in_order [] w (exec (step (SocketCloses sid)) w).
Proof.
  intros Hinv. rewrite step_close.
  destruct (sockets w !! sid) as [s|] eqn:Hs;
    [|apply in_order_core; [reflexivity|exact Hinv]].
  destruct (live s) eqn:Hlive;
    [|apply in_order_core; [reflexivity|exact Hinv]].
  destruct Hinv as (Hp & Hl & Hh & Hq).
  pose proof (Hl _ _ Hs Hlive) as Hws.
  destruct (Hh _ Hws) as (Hlen & _).
  unfold in_order, single_connection.
  split; [split; [|split; [|split]]|split].
  - unfold pending in *. cbn. rewrite Hws in Hp. rewrite length_app. simpl. lia.
  - cbn. intros i t Hi Ht.
    destruct (decide (i = sid)) as [->|Hne].
    + rewrite list_lookup_insert_eq in Hi by (eapply lookup_lt_Some; eassumption).
      injection Hi as <-. discriminate.
    + rewrite list_lookup_insert_ne in Hi by congruence.
      specialize (Hl _ _ Hi Ht). congruence.
  - cbn. intros sid' Hsid'. discriminate.
  - intros Hopen. discriminate.
  - unfold wire. cbn. rewrite app_nil_r. f_equal.
    rewrite <- (app_nil_r (flat_map ws_sent (sockets w))).
    apply (wire_insert_last _ _ s); auto. cbn. rewrite app_nil_r. reflexivity.
  - unfold fixed_endpoint. cbn. intros Hf. apply Forall_insert; [exact Hf|].
    apply (proj1 (Forall_lookup _ _) Hf _ _ Hs).
Qed.

(** One turn of the event loop keeps the three facts. *)
Lemma step_in_order w ev :
  single_connection w -> in_order (sent_messages [ev]) w (exec (step ev) w).
Proof.
  intros Hinv.
  destruct ev as [msg|callback|k token|token|sid|sid|sid error|sid data]; cbn [sent_messages flat_map app].
  - apply in_order_send, Hinv.
  - apply in_order_register, Hinv.
  - apply in_order_timer, Hinv.
  - apply in_order_load, Hinv.
  - apply in_order_open, Hinv.
  - apply in_order_close, Hinv.
  - apply in_order_core; [apply step_error_core|exact Hinv].
  - apply in_order_core; [apply step_message_core|exact Hinv].
Qed.

Lemma new_client_single_connection protocol complete x :
  single_connection (new_client protocol complete x) /\
  wire (new_client protocol complete x) = [] /\
  fixed_endpoint (new_client protocol complete x).
Proof.
  destruct complete; (split; [|split; [reflexivity|constructor]]);
    (split; [cbn; lia|split; [|split]]); cbn; discriminate.
Qed.

(** A run keeps the three facts and puts the texts of what it sent behind
    what was on the wire. *)
Lemma run_in_order evs : forall w,
  single_connection w -> in_order (sent_messages evs) w (run evs w).
Proof.
  induction evs as [|ev evs IH] using rev_ind; intros w Hinv.
  - split; [exact Hinv|]. split; [cbn; rewrite app_nil_r; reflexivity|auto].
  - rewrite run_snoc, sent_messages_snoc.
    destruct (IH w Hinv) as (H1 & H2 & H3).
    destruct (step_in_order (run evs w) ev H1) as (S1 & S2 & S3).
    split; [exact S1|]. split.
    + rewrite S2, H2, map_app, <- app_assoc. f_equal. f_equal. f_equal.
      cbn. rewrite app_nil_r. reflexivity.
    + auto.
Qed.

Lemma reachable_in_order w :
  reachable w -> single_connection w /\ fixed_endpoint w.
Proof.
  induction 1 as [protocol complete x|w ev _ (Hs & Hf)].
  - destruct (new_client_single_connection protocol complete x) as (? & _ & ?). auto.
  - destruct (step_in_order w ev Hs) as (S1 & _ & S3). auto.
Qed.

End StepInOrder2.

Section RunClaims.
Context `{Platform}.

Lemma live_closed s : live s = false <-> readyState s = CLOSED.
Proof. unfold live. destruct (readyState s); split; congruence. Qed.

Lemma filter_live_none (l : list WebSocket) :
  (forall s, In s l -> live s = false) -> List.filter live l = [].
Proof.
  induction l as [|x l IH]; intros Hd; [reflexivity|].
  simpl. rewrite (Hd x) by (left; reflexivity).
  apply IH. intros s Hin. apply Hd. right. exact Hin.
Qed.

Lemma at_most_one_live (l : list WebSocket) :
  (forall i s, l !! i = Some s -> live s = true -> S i = length l) ->
  length (List.filter live l) <= 1.
Proof.
  induction l as [|x l IH] using rev_ind; intros Hlast; [simpl; lia|].
  rewrite List.filter_app, length_app.
  assert (Hnone : List.filter live l = []).
  { apply filter_live_none. intros s Hin. apply Bool.not_true_iff_false. intros Hlive.
    apply list_elem_of_In, list_elem_of_lookup in Hin as [i Hi].
    pose proof (lookup_lt_Some _ _ _ Hi) as Hlt.
    specialize (Hlast i s (lookup_app_l_Some _ _ _ _ Hi) Hlive).
    rewrite length_app in Hlast. simpl in Hlast. lia. }
  rewrite Hnone. simpl. destruct (live x); simpl; lia.
Qed.

(** X4.  One connection at a time.  In every world a client can reach, at most
    one socket is not closed and no call of [connect] waits while there is
    one, nor do two calls wait; a socket that is not closed is the handle,
    and the handle is a socket that is not closed. *)
Theorem one_connection_at_a_time (w : World) :
  reachable w ->
  length (List.filter live (sockets w)) + pending w <= 1 /\
  (forall i s, sockets w !! i = Some s -> live s = true -> _ws (this w) = Some i) /\
  (forall sid, _ws (this w) = Some sid ->
     exists s, sockets w !! sid = Some s /\ live s = true).
Proof.
  intros Hr. destruct (reachable_in_order w Hr) as ((Hp & Hl & Hh & _) & _).
  split; [|split; [exact Hl|]].
  - assert (Hone : length (List.filter live (sockets w)) <= 1).
    { apply at_most_one_live. intros i s Hi Hlive.
      apply (Hh i), (Hl i s Hi Hlive). }
    destruct (List.filter live (sockets w)) as [|s rest] eqn:Hf; [simpl; lia|].
    assert (Hin : In s (List.filter live (sockets w))) by (rewrite Hf; left; reflexivity).
    apply List.filter_In in Hin as (Hin & Hlive).
    apply list_elem_of_In, list_elem_of_lookup in Hin as [i Hi].
    rewrite (Hl i s Hi Hlive) in Hp. simpl in Hone. simpl. lia.
  - intros sid Hws. destruct (Hh sid Hws) as (_ & s & Hs & Hr').
    exists s. split; [exact Hs|]. unfold live. destruct Hr' as [-> | ->]; reflexivity.
Qed.

(** X5.  Nothing waits in the queue while the connection is open, in any world a
    client can reach. *)
Theorem queue_empty_while_open (w : World) :
  reachable w -> is_open w = true -> _msgQueue (this w) = [].
Proof.
  intros Hr. destruct (reachable_in_order w Hr) as ((_ & _ & _ & Hq) & _). exact Hq.
Qed.

(** X6.  Every message once and in order.  After any run of a new client, the
    frames handed to its sockets, socket after socket, followed by the texts
    of the messages still in the queue, are the texts of the messages that
    were passed to [send], in the order of the calls. *)
Theorem wire_is_what_was_sent
    (protocol : string) (complete : bool) (x : Ext) (evs : list Event) :
  let w := run evs (new_client protocol complete x) in
  (flat_map ws_sent (sockets w) ++ map JSON_stringify (_msgQueue (this w)))%list =
  map JSON_stringify (sent_messages evs).
Proof.
  destruct (new_client_single_connection protocol complete x) as (Hs & Hw & _).
  destruct (run_in_order evs _ Hs) as (_ & Hwire & _).
  cbn zeta. fold (wire (run evs (new_client protocol complete x))).
  rewrite Hwire, Hw. reflexivity.
Qed.

Lemma step_keeps_protocol ev : keeps (fun w => _protocol (this w)) (step ev).
Proof.
  destruct ev;
    unfold step, send, registerCallback, run_task, connect, new_WebSocket, onopen,
      onclose, onmessage, onerror, call, send, ws_send, set_readyState, setTimeout,
      console_error, ws_readyState;
    keeps_all.
Qed.

Lemma run_keeps_protocol evs : forall w, _protocol (this (run evs w)) = _protocol (this w).
Proof.
  induction evs as [|ev evs IH]; intros w; [reflexivity|].
  simpl. rewrite IH. apply step_keeps_protocol.
Qed.

(** X7.  One endpoint.  Every socket a client ever makes goes to the URL of the
    module, and its subprotocol is the protocol name the client was made
    with, a [#], a token and a [#]. *)
Theorem every_socket_on_the_endpoint
    (protocol : string) (complete : bool) (x : Ext) (evs : list Event)
    (i : nat) (s : WebSocket) :
  sockets (run evs (new_client protocol complete x)) !! i = Some s ->
  ws_url s = url /\
  exists token, ws_protocol s = protocol ++ "#" ++ token ++ "#".
Proof.
  intros Hi.
  destruct (new_client_single_connection protocol complete x) as (Hs & _ & Hf).
  destruct (run_in_order evs _ Hs) as (_ & _ & Hfix).
  specialize (Hfix Hf). unfold fixed_endpoint in Hfix.
  rewrite run_keeps_protocol in Hfix.
  assert (Hp : _protocol (this (new_client protocol complete x)) = protocol)
    by (destruct complete; reflexivity).
  rewrite Hp in Hfix.
  apply (proj1 (Forall_lookup _ _) Hfix i s Hi).
Qed.

End RunClaims.

Section IdleFacts.
Context `{Platform}.

Lemma with_onload_same (w : World) : with_onload (onload w) w = w.
Proof. destruct w; reflexivity. Qed.

Lemma idle_not_open w : idle w -> open_socket w = None.
Proof. intros (_ & _ & Hws & _). unfold open_socket. rewrite Hws. reflexivity. Qed.

(** An idle client stays idle: a turn of the event loop makes no socket,
    changes none, and what is sent queues up. *)
Lemma idle_step w ev :
  idle w ->
  idle (exec (step ev) w) /\
  sockets (exec (step ev) w) = sockets w /\
  _msgQueue (this (exec (step ev) w)) = (_msgQueue (this w) ++ sent_messages [ev])%list.
Proof.
  intros Hidle. pose proof Hidle as (Ht & Ho & Hws & Hcl).
  assert (Hcore : forall w', core w' = core w ->
            idle w' /\ sockets w' = sockets w /\
            _msgQueue (this w') = (_msgQueue (this w) ++ [])%list).
  { unfold core. intros w' [= E1 E2 E3 E4]. unfold idle.
    rewrite E1, E2, E3, E4, app_nil_r. auto. }
  destruct ev as [msg|callback|k token|token|sid|sid|sid error|sid data];
    cbn [sent_messages flat_map app].
  - rewrite step_send, (idle_not_open _ Hidle). repeat split; assumption.
  - rewrite step_register. destruct (is_function callback).
    + unfold idle. cbn. rewrite app_nil_r. auto.
    + apply Hcore. reflexivity.
  - rewrite step_timer, Ht. apply Hcore. reflexivity.
  - rewrite step_load by (rewrite Ho; simpl; lia). rewrite Ho.
    apply Hcore. unfold core. cbn. rewrite Ho. reflexivity.
  - rewrite step_open. destruct (sockets w !! sid) as [s|] eqn:Hs; [|apply Hcore; reflexivity].
    rewrite (proj1 (Forall_lookup _ _) Hcl _ _ Hs). apply Hcore. reflexivity.
  - rewrite step_close. destruct (sockets w !! sid) as [s|] eqn:Hs; [|apply Hcore; reflexivity].
    rewrite (proj2 (live_closed s) (proj1 (Forall_lookup _ _) Hcl _ _ Hs)).
    apply Hcore. reflexivity.
  - apply Hcore, step_error_core.
  - apply Hcore, step_message_core.
Qed.

Lemma idle_run evs : forall w,
  idle w ->
  idle (run evs w) /\
  sockets (run evs w) = sockets w /\
  _msgQueue (this (run evs w)) = (_msgQueue (this w) ++ sent_messages evs)%list.
Proof.
  induction evs as [|ev evs IH] using rev_ind; intros w Hidle.
  - cbn. rewrite app_nil_r. auto.
  - rewrite run_snoc, sent_messages_snoc.
    destruct (IH w Hidle) as (H1 & H2 & H3).
    destruct (idle_step (run evs w) ev H1) as (S1 & S2 & S3).
    split; [exact S1|]. split; [congruence|].
    rewrite S3, H3, <- app_assoc. f_equal. f_equal. cbn. rewrite app_nil_r. reflexivity.
Qed.

(** With nothing waiting and no handle, one connection at a time means that
    every socket is closed. *)
Lemma nothing_pending_is_idle w :
  single_connection w -> pending w = 0 -> _ws (this w) = None -> idle w.
Proof.
  intros (_ & Hl & _ & _) Hp Hws. unfold pending in Hp.
  split; [apply length_zero_iff_nil; lia|].
  split; [apply length_zero_iff_nil; lia|].
  split; [exact Hws|].
  apply Forall_lookup. intros i s Hi. apply live_closed.
  destruct (live s) eqn:Hlive; [|reflexivity].
  specialize (Hl i s Hi Hlive). congruence.
Qed.

(** X8.  A refused prompt stops the client for good.  When the one waiting call
    of [connect] of a reachable world runs, from a timer or from the [load]
    event, and the prompt gives no token, nothing is left that would call
    [connect]: whatever happens afterwards, no socket is made or changed, so
    nothing is transmitted, and every message passed to [send] stays in the
    queue. *)
Theorem refused_prompt_stops_the_client (w : World) (ev : Event) (evs : list Event) :
  reachable w ->
  (exists k t, ev = TimerFires k None /\ timers w !! k = Some t) \/
  (ev = LoadFires None /\ onload w <> []) ->
  let w' := run evs (exec (step ev) w) in
  sockets w' = sockets w /\
  timers w' = [] /\ onload w' = [] /\ _ws (this w') = None /\
  _msgQueue (this w') = (_msgQueue (this w) ++ sent_messages evs)%list.
Proof.
  intros Hr Hev w'.
  destruct (reachable_in_order w Hr) as (Hinv & _).
  assert (Hafter : single_connection (exec (step ev) w) /\
                   pending (exec (step ev) w) = 0 /\
                   _ws (this (exec (step ev) w)) = None /\
                   sockets (exec (step ev) w) = sockets w /\
                   _msgQueue (this (exec (step ev) w)) = _msgQueue (this w)).
  { destruct Hev as [(k & t & -> & Hk)|(-> & Hl)].
    - pose proof (lookup_lt_Some _ _ _ Hk) as Hlt.
      destruct (single_connection_no_handle w Hinv) as (Hnone & Hp1).
      { unfold pending. lia. }
      destruct (in_order_timer w k None Hinv) as (Hinv' & _ & _).
      split; [exact Hinv'|]. rewrite step_timer, Hk.
      unfold pending in *. cbn. rewrite length_delete by (eexists; exact Hk).
      repeat split; auto. lia.
    - assert (Hlen : 1 <= length (onload w)).
      { destruct (onload w); [contradiction|simpl; lia]. }
      destruct (single_connection_no_handle w Hinv) as (Hnone & Hp1).
      { unfold pending. lia. }
      destruct (in_order_load w None Hinv) as (Hinv' & _ & _).
      split; [exact Hinv'|].
      rewrite step_load by (unfold pending in Hp1; lia).
      destruct (onload w) as [|t ts] eqn:Ho; [contradiction|].
      unfold pending in *. rewrite Ho in Hp1. cbn in *. repeat split; auto. lia. }
  destruct Hafter as (Hinv' & Hp0 & Hnone & Es & Eq).
  pose proof (nothing_pending_is_idle _ Hinv' Hp0 Hnone) as Hidle.
  destruct (idle_run evs _ Hidle) as ((Ht & Ho & Hws & _) & Hs & Hq).
  unfold w'. rewrite Hs, Hq, Es, Eq. auto.
Qed.

(** X9.  A URL the constructor refuses is never connected to.  If [new WebSocket]
    throws for the module's URL whatever the subprotocol, no run of a new
    client makes a socket: there is never a handle, and every message passed
    to [send] stays in the queue. *)
Theorem refused_url_never_connects
    (protocol : string) (complete : bool) (x : Ext) (evs : list Event) :
  (forall subProtocol, WebSocket_accepts url subProtocol = false) ->
  let w := run evs (new_client protocol complete x) in
  sockets w = [] /\ _ws (this w) = None /\ _msgQueue (this w) = sent_messages evs.
Proof.
  intros Hrej.
  assert (Hstep : forall w ev,
            sockets w = [] /\ _ws (this w) = None ->
            (sockets (exec (step ev) w) = [] /\ _ws (this (exec (step ev) w)) = None) /\
            _msgQueue (this (exec (step ev) w)) =
              (_msgQueue (this w) ++ sent_messages [ev])%list).
  { intros w ev (Hs & Hws).
    assert (Hconnect : forall token w0, exec (connect token) w0 = w0 \/
              exec (connect token) w0 = with_console (console w0 ++ [TokenFailure]) w0).
    { intros token w0. unfold exec. rewrite connect_cases.
      destruct token; [rewrite Hrej; left|right]; reflexivity. }
    assert (Hcore : forall w', core w' = core w ->
              (sockets w' = [] /\ _ws (this w') = None) /\
              _msgQueue (this w') = (_msgQueue (this w) ++ [])%list).
    { unfold core. intros w' [= E1 E2 E3 E4]. rewrite E1, E2, app_nil_r. auto. }
    destruct ev as [msg|callback|k token|token|sid|sid|sid error|sid data];
      cbn [sent_messages flat_map app].
    - rewrite step_send. unfold open_socket. rewrite Hws. auto.
    - rewrite step_register. destruct (is_function callback).
      + cbn. rewrite app_nil_r. auto.
      + apply Hcore. reflexivity.
    - rewrite step_timer. destruct (timers w !! k); [|apply Hcore; reflexivity].
      destruct (Hconnect token (with_timers (delete k (timers w)) w)) as [-> | ->];
        cbn; rewrite app_nil_r; auto.
    - unfold exec. cbn [step]. unfold bind at 1, gets at 1. unfold bind at 1, modify at 1.
      assert (Hloop : forall ls w0, sockets w0 = [] /\ _ws (this w0) = None ->
                let w1 := snd (forEach ls (fun task => run_task task token) w0) in
                (sockets w1 = [] /\ _ws (this w1) = None) /\
                _msgQueue (this w1) = _msgQueue (this w0)).
      { induction ls as [|[] ls IHl]; intros w0 Hw0; [cbn; auto|].
        cbn [forEach run_task]. unfold bind.
        destruct (Hconnect token w0) as [E|E]; unfold exec in E;
          destruct (connect token w0) as [[[]|e] w1'] eqn:Ec; cbn in E; subst w1'.
        - apply IHl. exact Hw0.
        - cbn. auto.
        - destruct (IHl (with_console (console w0 ++ [TokenFailure]) w0)) as (I1 & I2); auto.
        - cbn. auto. }
      destruct (Hloop (onload w) (with_onload [] w)) as (L1 & L2); [cbn; auto|].
      rewrite app_nil_r. split; [exact L1|exact L2].
    - rewrite step_open, Hs, lookup_nil. apply Hcore. reflexivity.
    - rewrite step_close, Hs, lookup_nil. apply Hcore. reflexivity.
    - apply Hcore, step_error_core.
    - apply Hcore, step_message_core. }
  assert (Hrun : forall evs',
            let w := run evs' (new_client protocol complete x) in
            (sockets w = [] /\ _ws (this w) = None) /\
            _msgQueue (this w) = sent_messages evs').
  { induction evs' as [|ev evs' IH] using rev_ind.
    - destruct complete; cbn; auto.
    - cbn zeta in *. rewrite run_snoc, sent_messages_snoc.
      destruct IH as (I1 & I2). destruct (Hstep _ ev I1) as (S1 & S2).
      split; [exact S1|]. rewrite S2, I2. f_equal. cbn. rewrite app_nil_r. reflexivity. }
  cbn zeta. destruct (Hrun evs) as ((R1 & R2) & R3). auto.
Qed.

(** X10.  [onopen] loses nothing.  Run without an open connection, it puts every
    message back in the queue in its place: the world is what it was. *)
Theorem onopen_without_connection (w : World) :
  is_open w = false -> onopen w = (Ok tt, w).
Proof.
  intros Hc.
  assert (Hn : open_socket w = None).
  { rewrite open_socket_is_open in Hc. destruct (open_socket w); [discriminate|reflexivity]. }
  unfold onopen, bind at 1, gets at 1. unfold bind at 1, modify at 1.
  rewrite forEach_send_closed.
  - unfold enqueue. cbn. destruct w as [[] ? ? ? ? ? ?]; reflexivity.
  - exact Hn.
Qed.

End IdleFacts.

Section ListenerFacts.
Context `{Platform}.

Lemma onmessage_parsed w data msg fs :
  JSON_parse data = Ok msg ->
  _callback (this w) = map Fn fs ->
  onmessage data w = (Ok tt, deliver 0 fs msg w).
Proof.
  intros Hp Hc. unfold onmessage. unfold try_catch at 1. unfold bind at 1. unfold lift.
  rewrite Hp. unfold bind at 1. unfold gets. cbv beta iota.
  rewrite Hc, dispatch_delivers. reflexivity.
Qed.

Lemma run_listeners evs : forall w,
  exists more, listeners_of (run evs w) = (listeners_of w ++ more)%list.
Proof.
  induction evs as [|ev evs IH]; intros w.
  - exists []. rewrite app_nil_r. reflexivity.
  - simpl. destruct (IH (exec (step ev) w)) as [more Hm].
    rewrite Hm, step_listeners, <- app_assoc. eexists. reflexivity.
Qed.

(** X11.  Once registered, always called.  A function registered in a reachable
    world keeps its place in the list of listeners through every run, and a
    frame that parses afterwards calls it with the parsed message. *)
Theorem registered_listener_hears_every_frame
    (w : World) (f : MessageCallback) (evs : list Event) (data : string) (msg : Message) :
  reachable w ->
  JSON_parse data = Ok msg ->
  let i := length (_callback (this w)) in
  let w1 := run evs (exec (registerCallback (Fn f)) w) in
  let w2 := exec (onmessage data) w1 in
  (exists fs, _callback (this w1) = map Fn fs /\ fs !! i = Some f) /\
  (i, msg) ∈ drop (length (calls w1)) (calls w2).
Proof.
  intros Hr Hp i w1 w2.
  assert (Hr1 : reachable w1).
  { apply reachable_run. apply (reachable_step w (CallRegister (Fn f))). exact Hr. }
  destruct (reachable_listeners w1 Hr1) as [fs Hfs].
  assert (Hi : fs !! i = Some f).
  { destruct (run_listeners evs (exec (registerCallback (Fn f)) w)) as [more Hm].
    fold w1 in Hm. unfold listeners_of in Hm. rewrite Hfs in Hm. cbn in Hm.
    assert (Hl : map Fn fs !! i = Some (Fn f)).
    { rewrite Hm, <- app_assoc. apply list_lookup_middle. reflexivity. }
    change (map Fn fs) with (Fn <$> fs) in Hl.
    rewrite list_lookup_fmap in Hl. destruct (fs !! i) as [g|]; simpl in Hl; congruence. }
  split; [exists fs; auto|].
  unfold w2, exec. rewrite (onmessage_parsed _ _ _ _ Hp Hfs). cbn [snd].
  rewrite deliver_calls, drop_app_length.
  apply list_elem_of_lookup. exists i. rewrite list_lookup_imap, Hi. reflexivity.
Qed.

End ListenerFacts.

Section ContributionFacts.
Context `{Services}.
Context (parse : string -> Result JsVal) (stringify : JsVal -> string)
        (agent : string) (accepts : string -> string -> bool).

Let P : Platform := BrowserPlatform parse stringify agent accepts.
#[local] Existing Instance P.

Lemma platform_run_listeners evs : forall w : World,
  forallb platform_event evs = true -> listeners_of (run evs w) = listeners_of w.
Proof.
  induction evs as [|ev evs IH]; intros w Hev; [reflexivity|].
  simpl in Hev. apply andb_prop in Hev as (He & Hev).
  simpl. rewrite (IH _ Hev), step_listeners.
  destruct ev as [|[]| | | | | |]; try discriminate; apply app_nil_r.
Qed.

Lemma platform_sends_nothing evs :
  forallb platform_event evs = true -> @sent_messages P evs = [].
Proof.
  induction evs as [|ev evs IH]; intros Hev; [reflexivity|].
  simpl in Hev. apply andb_prop in Hev as (He & Hev).
  simpl. rewrite (IH Hev). destruct ev; try discriminate; reflexivity.
Qed.

(** X12.  The contribution only listens.  Its client is local to [init] and [init]
    never calls [send]: after any events of the platform the one listener is
    the router, the queue is empty and no socket was handed a frame. *)
Theorem contribution_only_listens (complete : bool) (evs : list Event) :
  forallb platform_event evs = true ->
  let w := run evs (init parse stringify agent accepts complete) in
  _callback (this w) = [Fn (listener parse stringify agent accepts)] /\
  _msgQueue (this w) = [] /\
  Forall (fun s => ws_sent s = []) (sockets w).
Proof.
  intros Hev w.
  assert (Hl : _callback (this w) = [Fn (listener parse stringify agent accepts)]).
  { fold (listeners_of w). unfold w. rewrite (platform_run_listeners _ _ Hev).
    destruct complete; reflexivity. }
  split; [exact Hl|].
  assert (Hw : wire w = []).
  { destruct (@new_client_single_connection P "EXTENSION_EDITOR" complete (@nil Async))
      as (Hs & Hw0 & _).
    destruct (step_in_order _ (CallRegister (Fn (listener parse stringify agent accepts))) Hs)
      as (Hs1 & Hw1 & _).
    destruct (run_in_order evs _ Hs1) as (_ & Hw2 & _).
    assert (Ew : w = run evs
                       (exec (step (CallRegister (Fn (listener parse stringify agent accepts))))
                          (@new_client P "EXTENSION_EDITOR" complete (@nil Async))))
      by reflexivity.
    pose proof (platform_sends_nothing _ Hev) as Hnone.
    unfold P in *. rewrite Ew, Hw2, Hw1, Hw0, Hnone. reflexivity. }
  unfold wire in Hw. apply app_eq_nil in Hw as (Hsent & Hq).
  split.
  - destruct (_msgQueue (this w)); [reflexivity|discriminate].
  - apply Forall_forall. intros s Hin.
    destruct (ws_sent s) as [|frame frames] eqn:Hf; [reflexivity|].
    exfalso. assert (Hin' : In frame (flat_map ws_sent (sockets w))).
    { apply in_flat_map. exists s. split; [apply list_elem_of_In, Hin|].
      rewrite Hf. left. reflexivity. }
    rewrite Hsent in Hin'. destruct Hin'.
Qed.


End ContributionFacts.

Section RouterMore.
Context `{Services}.

Lemma get_prop_throws v key :
  (exists e, get_prop v key = Throw e) <-> v = JUndefined \/ v = JNull.
Proof.
  destruct v; simpl; split; intros Hx;
    try (destruct Hx as [e He]; discriminate);
    try (destruct Hx as [Hx|Hx]; discriminate);
    eauto.
Qed.

(** X14.  The router starts what it knows and nothing else.  Whatever the message,
    at most one action is started, and it is [openFile], [changeTheme] with
    one of the two theme identifiers, or [changeLanguage] with one of the two
    locales. *)
Theorem router_starts_known_actions (msg : JsVal) :
  started (on_command msg) = [] \/
  (exists filePath, started (on_command msg) = [openFile filePath]) \/
  (exists themeId, started (on_command msg) = [changeTheme themeId] /\
                   (themeId = "Visual Studio Light" \/ themeId = "Default Dark+")) \/
  (exists locale, started (on_command msg) = [changeLanguage locale] /\
                  (locale = "zh-CN" \/ locale = "en")).
Proof.
  unfold on_command.
  destruct (get_prop msg "command") as [command|e]; [|left; reflexivity].
  destruct (get_prop msg "data") as [data|e]; [|left; reflexivity].
  destruct (is_str command "openFile").
  { destruct (get_prop data "filePath") as [filePath|e]; [|left; reflexivity].
    right. left. exists filePath. reflexivity. }
  destruct (is_str command "updateTheme").
  { right. right. left. eexists. split; [reflexivity|].
    destruct (is_str data "theme-2"); auto. }
  destruct (is_str command "updateLocale").
  { right. right. right. eexists. split; [reflexivity|].
    destruct (is_str data "zh-CN"); auto. }
  left. reflexivity.
Qed.

(** X15.  When the router throws.  The listener throws exactly on a message that is
    [null] or [undefined], and on an [openFile] command whose [data] is [null]
    or [undefined]; when it throws it has started nothing. *)
Theorem router_throws_exactly_when (msg : JsVal) :
  ((exists e, returned (on_command msg) = Throw e) <->
   (msg = JUndefined \/ msg = JNull) \/
   (exists data, get_prop msg "command" = Ok (JStr "openFile") /\
                 get_prop msg "data" = Ok data /\
                 (data = JUndefined \/ data = JNull))) /\
  ((exists e, returned (on_command msg) = Throw e) -> started (on_command msg) = []).
Proof.
  unfold on_command.
  destruct (get_prop msg "command") as [command|e] eqn:Hc.
  - assert (Hm : ~ (msg = JUndefined \/ msg = JNull)).
    { intros Hn. apply (get_prop_throws msg "command") in Hn as [e He]. congruence. }
    destruct (get_prop msg "data") as [data|e] eqn:Hd.
    + destruct (is_str command "openFile") eqn:Ho.
      * apply is_str_true in Ho. subst command.
        destruct (get_prop data "filePath") as [filePath|e] eqn:Hf; simpl.
        -- split; [|intros [e He]; discriminate].
           split; [intros [e He]; discriminate|].
           intros [Hn|(data' & _ & [= <-] & Hn)]; [contradiction|].
           apply (get_prop_throws data "filePath") in Hn as [e He]. congruence.
        -- split; [|reflexivity]. split; [|eauto].
           intros _. right. exists data. repeat split.
           apply (get_prop_throws data "filePath"). eauto.
      * apply is_str_false in Ho.
        assert (Hok : forall h : Handled, returned h = Ok tt ->
                  ((exists e, returned h = Throw e) <->
                   (msg = JUndefined \/ msg = JNull) \/
                   (exists data0, Ok command = Ok (JStr "openFile") /\
                                  Ok data = Ok data0 /\
                                  (data0 = JUndefined \/ data0 = JNull))) /\
                  ((exists e, returned h = Throw e) -> started h = [])).
        { intros h Hh. rewrite Hh. split; [|intros [e He]; discriminate].
          split; [intros [e He]; discriminate|].
          intros [Hn|(data' & [= Hcmd] & _)]; [contradiction|congruence]. }
        destruct (is_str command "updateTheme"); [apply Hok; reflexivity|].
        destruct (is_str command "updateLocale"); apply Hok; reflexivity.
    + exfalso. apply Hm, (get_prop_throws msg "data"). eauto.
  - simpl. split; [|reflexivity]. split; [|eauto].
    intros _. left. apply (get_prop_throws msg "command"). eauto.
Qed.

(** X16.  The other two commands.  An [openFile] command whose [data] can be read
    starts [openFile] with the [filePath] of [data], or with [undefined] when
    [data] has none; an [updateLocale] command starts [changeLanguage] with
    ['zh-CN'] when [data] is that string and with ['en'] otherwise. *)
Theorem openFile_and_updateLocale_commands (msg command data : JsVal) :
  get_prop msg "command" = Ok command ->
  get_prop msg "data" = Ok data ->
  (command = JStr "openFile" ->
   forall filePath, get_prop data "filePath" = Ok filePath ->
     on_command msg = {| returned := Ok tt; started := [openFile filePath] |}) /\
  (command = JStr "updateLocale" ->
   exists locale,
     on_command msg = {| returned := Ok tt; started := [changeLanguage locale] |} /\
     (data = JStr "zh-CN" -> locale = "zh-CN") /\
     (data <> JStr "zh-CN" -> locale = "en")).
Proof.
  intros Hc Hd. unfold on_command. rewrite Hc, Hd. split.
  - intros -> filePath Hf. simpl. rewrite Hf. reflexivity.
  - intros ->. simpl.
    exists (if is_str data "zh-CN" then "zh-CN" else "en").
    split; [reflexivity|]. split.
    + intros ->. reflexivity.
    + intros Hn. apply is_str_false in Hn. rewrite Hn. reflexivity.
Qed.

(** [changeLanguage] contains its failure: the promise is fulfilled whatever
    the configuration service does. *)
Lemma changeLanguage_fulfilled locale : settled (changeLanguage locale) = Fulfilled tt.
Proof. unfold changeLanguage. destruct (updateValue "locale" locale); reflexivity. Qed.

(** X17.  Where a rejection nobody handles can come from.  A promise the router
    leaves rejected is the one of [openFile], when the workspace has no folder
    or [URI.joinPath] threw, or the one of [changeTheme], when the theme
    service rejected the listing or the setting; [changeLanguage] and the
    editor's failure never leave one. *)
Theorem unhandled_rejection_sources (msg : JsVal) (e : Exn) :
  In e (unhandled_rejections (on_command msg)) ->
  workspace_folders = [] \/
  (exists folder others filePath,
     workspace_folders = folder :: others /\ URI_joinPath folder filePath = Throw e) \/
  getColorThemes = Rejected e \/
  (exists theme, setColorTheme theme "auto" = Rejected e).
Proof.
  assert (Hopen : forall filePath, settled (openFile filePath) = Rejected e ->
            workspace_folders = [] \/
            exists folder others filePath,
              workspace_folders = folder :: others /\ URI_joinPath folder filePath = Throw e).
  { intros filePath. unfold openFile.
    destruct workspace_folders as [|folder others] eqn:Hf; [left; reflexivity|].
    destruct (URI_joinPath folder filePath) as [fileUri|e'] eqn:Hj.
    - destruct (openEditor fileUri true); discriminate.
    - intros [= <-]. right. exists folder, others, filePath. auto. }
  assert (Htheme : forall id, settled (changeTheme id) = Rejected e ->
            getColorThemes = Rejected e \/
            exists theme, setColorTheme theme "auto" = Rejected e).
  { intros id. unfold changeTheme.
    destruct getColorThemes as [themes|e'] eqn:Hg.
    - destruct (find _ themes) as [theme|]; [|discriminate].
      cbn [settled]. intros Hs. right. exists theme. exact Hs.
    - intros [= <-]. left. reflexivity. }
  assert (Hone : forall a : Async,
            In e (flat_map (fun a => match settled a with
                                     | Rejected e => [e]
                                     | Fulfilled _ => []
                                     end) [a]) ->
            settled a = Rejected e).
  { intros a. simpl. destruct (settled a); simpl; [contradiction|].
    intros [<-|[]]. reflexivity. }
  unfold unhandled_rejections, on_command.
  destruct (get_prop msg "command") as [command|?]; [|contradiction].
  destruct (get_prop msg "data") as [data|?]; [|contradiction].
  destruct (is_str command "openFile").
  { destruct (get_prop data "filePath") as [filePath|?]; [|contradiction].
    intros Hin. apply Hone, Hopen in Hin. tauto. }
  destruct (is_str command "updateTheme").
  { intros Hin. apply Hone, Htheme in Hin. tauto. }
  destruct (is_str command "updateLocale"); [|contradiction].
  intros Hin. apply Hone in Hin. rewrite changeLanguage_fulfilled in Hin. discriminate.
Qed.

(** X18.  [changeTheme] applies the theme it was asked for.  A theme handed to the
    theme service has the identifier asked for, is among the themes the
    service listed, and goes to the target ['auto']; when no listed theme has
    the identifier, nothing is set, the miss is logged and the promise is
    fulfilled. *)
Theorem changeTheme_applies_only_that_theme (id : string) :
  (forall theme target,
     In (SetColorTheme theme target) (effects (changeTheme id)) ->
     settingsId theme = id /\ target = "auto" /\
     exists themes, getColorThemes = Fulfilled themes /\ In theme themes) /\
  (forall themes,
     getColorThemes = Fulfilled themes ->
     (forall theme, In theme themes -> settingsId theme <> id) ->
     changeTheme id =
       {| effects := [GetColorThemes; ConsoleError (ThemeNotFound id)];
          settled := Fulfilled tt |}).
Proof.
  split.
  - intros theme target Hin. unfold changeTheme in Hin.
    destruct getColorThemes as [themes|e] eqn:Hg.
    + destruct (find _ themes) as [found|] eqn:Hf; simpl in Hin.
      * destruct Hin as [Hin|[Hin|[]]]; [discriminate|]. injection Hin as <- <-.
        apply find_some in Hf as (Hin & Heq). apply String.eqb_eq in Heq.
        repeat split; eauto.
      * destruct Hin as [Hin|[Hin|[]]]; discriminate.
    + simpl in Hin. destruct Hin as [Hin|[]]; discriminate.
  - intros themes Hg Hnone. unfold changeTheme. rewrite Hg.
    destruct (find _ themes) as [found|] eqn:Hf; [|reflexivity].
    apply find_some in Hf as (Hin & Heq). apply String.eqb_eq in Heq.
    exfalso. exact (Hnone found Hin Heq).
Qed.

(** X19.  [openFile] contains the editor's failure.  With a folder in the workspace
    and a path that [URI.joinPath] takes, the editor is asked once, for the
    path joined to the first folder and pinned; the promise is fulfilled
    whatever the editor answers, and a refusal of the editor is what gets
    logged. *)
Theorem openFile_contains_editor_failure
    (folder : URI) (others : list URI) (filePath : JsVal) (fileUri : URI) :
  workspace_folders = folder :: others ->
  URI_joinPath folder filePath = Ok fileUri ->
  settled (openFile filePath) = Fulfilled tt /\
  (exists rest, effects (openFile filePath) = OpenEditor fileUri true :: rest /\
                forall uri pinned, ~ In (OpenEditor uri pinned) rest) /\
  logged (openFile filePath) =
    match openEditor fileUri true with
    | Fulfilled _ => []
    | Rejected e => [OpenFailed filePath e]
    end.
Proof.
  intros Hf Hj. unfold logged, openFile. rewrite Hf, Hj.
  destruct (openEditor fileUri true) as [[]|e]; (split; [reflexivity|split; [|reflexivity]]);
    eexists; (split; [reflexivity|]); intros uri pinned Hin; simpl in Hin.
  - exact Hin.
  - destruct Hin as [Hin|[]]. discriminate.
Qed.

End RouterMore.

(** ** The endpoint, for every user agent *)

Section EndpointMore.
Import Endpoint.

Lemma strip_prefix_Some p : forall s rest,
  strip_prefix p s = Some rest <-> s = p ++ rest.
Proof.
  induction p as [|a p IH]; intros s rest; simpl.
  - split; [intros [= ->]; reflexivity|intros ->; reflexivity].
  - destruct s as [|b s]; [split; discriminate|].
    destruct (Ascii.eqb_spec a b) as [->|Hne].
    + rewrite IH. split; [intros ->; reflexivity|intros [= ->]; reflexivity].
    + split; [discriminate|intros [= ? ?]; congruence].
Qed.

Lemma match_port_None ua : match_port ua = None <-> ~ occurs "port/" ua.
Proof.
  induction ua as [|c ua IH].
  - split; [|reflexivity]. intros _ (pre & post & E).
    destruct pre; discriminate.
  - cbn [match_port].
    destruct (strip_prefix "port/" (String c ua)) as [rest|] eqn:Hs.
    + split; [discriminate|]. intros Hno. exfalso. apply Hno.
      apply strip_prefix_Some in Hs. exists "", rest. exact Hs.
    + rewrite IH. split.
      * intros Hno (pre & post & E). destruct pre as [|c' pre].
        -- simpl in E. apply (strip_prefix_Some "port/") in E. congruence.
        -- injection E as -> E. apply Hno. exists pre, post. exact E.
      * intros Hno (pre & post & E). apply Hno. exists (String c pre), post.
        simpl. rewrite E. reflexivity.
Qed.

(** [port/] does not overlap itself: a text that does not start with it does
    not start with it either when [port/] is put behind. *)
Lemma strip_prefix_no_overlap c s rest :
  strip_prefix "port/" (String c s) = None ->
  strip_prefix "port/" (String c s ++ "port/" ++ rest) = None.
Proof.
  destruct s as [|c2 [|c3 [|c4 [|c5 s]]]];
    repeat (cbv [strip_prefix String.append];
            match goal with
            | |- context [Ascii.eqb ?a ?b] =>
                destruct (Ascii.eqb_spec a b); [subst|];
                try discriminate; try (intros; congruence)
            end).
Qed.

(** The pattern matches at the first [port/]. *)
Lemma match_port_first pre : forall rest,
  match_port pre = None ->
  match_port (pre ++ "port/" ++ rest) = Some (digits_prefix rest).
Proof.
  induction pre as [|c pre IH]; intros rest Hno; [reflexivity|].
  cbn [match_port] in Hno.
  destruct (strip_prefix "port/" (String c pre)) as [r|] eqn:Hs; [discriminate|].
  change ((String c pre ++ "port/" ++ rest)) with (String c (pre ++ "port/" ++ rest)).
  cbn [match_port].
  change (String c (pre ++ "port/" ++ rest)) with (String c pre ++ "port/" ++ rest).
  rewrite (strip_prefix_no_overlap _ _ _ Hs).
  apply IH, Hno.
Qed.

Ltac read_one_digit :=
  cbn [read_digits];
  match goal with
  | |- context [is_digit ?c] => change (is_digit c) with true
  end;
  cbv iota;
  match goal with
  | |- context [digit_value ?c] =>
      let v := eval vm_compute in (digit_value c) in change (digit_value c) with v
  end.

Lemma read_digits_acc d : forall acc,
  read_digits (Z.pos acc) (NilEmpty.string_of_uint d) = Z.pos (Pos.of_uint_acc d acc).
Proof.
  induction d; intros acc; cbn [NilEmpty.string_of_uint Pos.of_uint_acc]; [reflexivity|..];
    read_one_digit; rewrite <- IHd; f_equal; lia.
Qed.

Lemma read_digits_uint d :
  read_digits 0 (NilEmpty.string_of_uint d) = Z.of_N (Pos.of_uint d).
Proof.
  induction d; cbn [NilEmpty.string_of_uint Pos.of_uint]; [reflexivity|..];
    read_one_digit; cbn [Z.mul Z.add Z.of_N]; [exact IHd|..]; apply read_digits_acc.
Qed.

Lemma digits_prefix_uint d rest :
  digits_prefix rest = "" ->
  digits_prefix (NilEmpty.string_of_uint d ++ rest) = NilEmpty.string_of_uint d.
Proof.
  intros Hr.
  induction d; cbn [NilEmpty.string_of_uint]; [exact Hr|..];
    match goal with
    | |- context [String ?c ?s ++ ?r] =>
        change (String c s ++ r) with (String c (s ++ r))
    end;
    cbn [digits_prefix];
    match goal with
    | |- context [is_digit ?c] => change (is_digit c) with true
    end;
    cbv iota; rewrite IHd; reflexivity.
Qed.

(** The decimal text of a natural number: it starts with a digit, has digits
    only, and [parseInt] reads the number back. *)
Lemma to_string_digits n rest :
  (0 <= n)%Z ->
  digits_prefix rest = "" ->
  digits_prefix (to_string (Int n) ++ rest) = to_string (Int n) /\
  parseInt (to_string (Int n)) = Int n.
Proof.
  intros Hn Hr. unfold to_string.
  destruct n as [|p|p];
    [split; [exact (digits_prefix_uint (Decimal.D0 Decimal.Nil) rest Hr)|reflexivity]| |lia].
  cbn [Z.to_int NilZero.string_of_int].
  pose proof (DecimalPos.Unsigned.to_uint_nonnil p) as Hnn.
  pose proof (DecimalPos.Unsigned.of_to p) as Hof.
  assert (Hs : NilZero.string_of_uint (Pos.to_uint p) =
               NilEmpty.string_of_uint (Pos.to_uint p)).
  { destruct (Pos.to_uint p); [contradiction|..]; reflexivity. }
  rewrite Hs. split; [apply digits_prefix_uint, Hr|].
  assert (Hv : read_digits 0 (NilEmpty.string_of_uint (Pos.to_uint p)) = Z.pos p).
  { rewrite read_digits_uint, Hof. reflexivity. }
  destruct (Pos.to_uint p) as [|d|d|d|d|d|d|d|d|d|d]; [contradiction|..];
    cbn [NilEmpty.string_of_uint] in *; rewrite parseInt_digit by reflexivity;
    rewrite Hv; reflexivity.
Qed.

End EndpointMore.

(** X1.  The default port.  The pattern finds no match exactly when [port/] stands
    nowhere in the user agent, and then the URL has the port 9974. *)
Theorem url_default_without_port (ua : string) :
  (Endpoint.port ua = None <-> ~ occurs "port/" ua) /\
  (Endpoint.port ua = None -> Endpoint.url ua = "ws://127.0.0.1:9974").
Proof.
  split; [apply match_port_None|].
  intros Hn. unfold Endpoint.url, Endpoint.port_number. rewrite Hn. reflexivity.
Qed.

(** X2.  The port that is written is the port that is used.  When the first
    [port/] of the user agent is followed by the decimal text of a number
    and then by something that is no digit, the URL ends in that text. *)
Theorem url_of_written_port (pre rest : string) (n : Z) :
  Endpoint.port pre = None ->
  (0 <= n < 2 ^ 53)%Z ->
  Endpoint.digits_prefix rest = "" ->
  Endpoint.port_number (pre ++ "port/" ++ Endpoint.to_string (Endpoint.Int n) ++ rest) =
    Endpoint.Int n /\
  Endpoint.url (pre ++ "port/" ++ Endpoint.to_string (Endpoint.Int n) ++ rest) =
    "ws://127.0.0.1:" ++ Endpoint.to_string (Endpoint.Int n).
Proof.
  intros Hpre (Hn & _) Hrest.
  destruct (to_string_digits n rest Hn Hrest) as (Hd & Hp).
  assert (E : Endpoint.port_number
                (pre ++ "port/" ++ Endpoint.to_string (Endpoint.Int n) ++ rest) =
              Endpoint.Int n).
  { unfold Endpoint.port_number, Endpoint.port.
    rewrite (match_port_first pre _ Hpre), Hd. exact Hp. }
  split; [exact E|]. unfold Endpoint.url. rewrite E. reflexivity.
Qed.

(** X3.  A [port/] without a number.  When the first [port/] of the user agent is
    followed by something that is no digit, or by nothing, the port is [NaN]
    and the URL ends in [NaN]. *)
Theorem url_of_port_without_number (pre rest : string) :
  Endpoint.port pre = None ->
  Endpoint.digits_prefix rest = "" ->
  Endpoint.port (pre ++ "port/" ++ rest) = Some "" /\
  Endpoint.url (pre ++ "port/" ++ rest) = "ws://127.0.0.1:NaN".
Proof.
  intros Hpre Hrest.
  assert (E : Endpoint.port (pre ++ "port/" ++ rest) = Some "").
  { unfold Endpoint.port. rewrite (match_port_first pre _ Hpre), Hrest. reflexivity. }
  split; [exact E|].
  unfold Endpoint.url, Endpoint.port_number. rewrite E. reflexivity.
Qed.

(** ** The runs of the fixture *)

Section MoreScenarios.
Import Fixture.
#[local] Existing Instance browser.

Lemma booted_reachable : @reachable browser booted.
Proof.
  apply (@reachable_step browser _
           (CallRegister (Fn (@listener one_folder parse stringify agent accepts)))).
  apply reachable_new.
Qed.

Lemma opened_reachable : @reachable browser opened.
Proof. apply reachable_step, reachable_step, booted_reachable. Qed.

Lemma url_default_without_port_witness :
  ~ occurs "port/" "Mozilla/5.0 Safari" /\
  Endpoint.url "Mozilla/5.0 Safari" = "ws://127.0.0.1:9974".
Proof.
  destruct (url_default_without_port "Mozilla/5.0 Safari") as (Hiff & Hurl).
  split; [apply (proj1 Hiff); reflexivity|apply Hurl; reflexivity].
Defined.

Lemma url_of_written_port_witness :
  Endpoint.url "Mozilla/5.0 (X11) port/8080 Safari" = "ws://127.0.0.1:8080".
Proof.
  apply (proj2 (url_of_written_port "Mozilla/5.0 (X11) " " Safari" 8080
                  eq_refl ltac:(lia) eq_refl)).
Defined.

Lemma url_of_port_without_number_witness :
  Endpoint.url "Mozilla/5.0 port/x" = "ws://127.0.0.1:NaN".
Proof.
  apply (proj2 (url_of_port_without_number "Mozilla/5.0 " "x" eq_refl eq_refl)).
Defined.

Lemma one_connection_at_a_time_witness :
  length (List.filter live (@sockets browser opened)) + pending opened <= 1.
Proof. apply (proj1 (@one_connection_at_a_time browser opened opened_reachable)). Defined.

Lemma queue_empty_while_open_witness : @_msgQueue browser (this opened) = [].
Proof. apply (@queue_empty_while_open browser opened opened_reachable). reflexivity. Defined.

(** Sent while connecting, while open, after the close and while connecting
    again: the first socket has the first two messages, the second the third
    and then, the connection being open, the fourth. *)
Example messages_across_a_reconnect :
  let evs := [TimerFires 0 (Some "t1"); @CallSend browser (JNum 1); SocketOpens 0;
              @CallSend browser (JNum 2); SocketCloses 0; @CallSend browser (JNum 3);
              TimerFires 0 (Some "t2"); SocketOpens 1; @CallSend browser (JNum 4)] in
  let w := @run browser evs booted in
  ws_sent <$> sockets w = [["1"; "2"]; ["3"; "4"]] /\
  @_msgQueue browser (this w) = [].
Proof. split; reflexivity. Qed.

Lemma every_socket_on_the_endpoint_witness :
  exists token, "EXTENSION_EDITOR#s3cr3t#" = "EXTENSION_EDITOR" ++ "#" ++ token ++ "#".
Proof.
  apply (@every_socket_on_the_endpoint browser "EXTENSION_EDITOR" true []
           [TimerFires 0 (Some "s3cr3t")] 0
           {| ws_url := "ws://127.0.0.1:8080"; ws_protocol := "EXTENSION_EDITOR#s3cr3t#";
              readyState := CONNECTING; ws_sent := [] |}).
  reflexivity.
Defined.

Lemma refused_prompt_stops_the_client_witness :
  let w' := @run browser [@CallSend browser msg_a; SocketOpens 0; LoadFires (Some "late")]
              (exec (step (TimerFires 0 None)) booted) in
  sockets w' = [] /\ @_msgQueue browser (this w') = [msg_a].
Proof.
  destruct (@refused_prompt_stops_the_client browser booted (TimerFires 0 None)
              [@CallSend browser msg_a; SocketOpens 0; LoadFires (Some "late")] booted_reachable)
    as (Hs & _ & _ & _ & Hq).
  - left. exists 0, (0, CallConnect). split; reflexivity.
  - split; [exact Hs|exact Hq].
Defined.

Lemma refused_url_never_connects_witness :
  let evs := [@TimerFires portless 0 (Some "s3cr3t"); @CallSend portless msg_a] in
  let w := @run portless evs (@new_client portless "EXTENSION_EDITOR" true []) in
  @sockets portless w = [] /\ @_msgQueue portless (this w) = [msg_a].
Proof.
  destruct (@refused_url_never_connects portless "EXTENSION_EDITOR" true []
              [@TimerFires portless 0 (Some "s3cr3t"); @CallSend portless msg_a])
    as (Hs & _ & Hq).
  - intros subProtocol. reflexivity.
  - split; [exact Hs|exact Hq].
Defined.

Lemma onopen_without_connection_witness :
  @onopen browser (enqueue [msg_a; msg_b] booted) = (Ok tt, enqueue [msg_a; msg_b] booted).
Proof. apply (@onopen_without_connection browser). reflexivity. Defined.

Lemma registered_listener_hears_every_frame_witness :
  let w1 := @run browser [TimerFires 0 (Some "s3cr3t"); SocketOpens 0]
              (exec (registerCallback (Fn faulty)) booted) in
  (1, JNull) ∈ drop (length (calls w1)) (calls (exec (onmessage "null") w1)).
Proof.
  apply (proj2 (@registered_listener_hears_every_frame browser booted faulty
                  [TimerFires 0 (Some "s3cr3t"); SocketOpens 0] "null" JNull
                  booted_reachable eq_refl)).
Defined.

Lemma contribution_only_listens_witness :
  let w := @run browser [TimerFires 0 (Some "s3cr3t"); SocketOpens 0;
                         SocketMessage 0 "null"; SocketCloses 0]
             (init parse stringify agent accepts true) in
  @_msgQueue browser (this w) = [] /\ Forall (fun s => ws_sent s = []) (sockets w).
Proof.
  apply (proj2 (@contribution_only_listens one_folder parse stringify agent accepts true
                  [TimerFires 0 (Some "s3cr3t"); SocketOpens 0;
                   SocketMessage 0 "null"; SocketCloses 0] eq_refl)).
Defined.


Lemma router_throws_exactly_when_witness :
  exists e, returned (@on_command one_folder JNull) = Throw e.
Proof.
  apply (proj2 (proj1 (@router_throws_exactly_when one_folder JNull))).
  left. right. reflexivity.
Defined.

Lemma openFile_and_updateLocale_commands_witness :
  @on_command one_folder (open_command "src/main.ts") =
    {| returned := Ok tt; started := [@openFile one_folder (JStr "src/main.ts")] |}.
Proof.
  apply (proj1 (@openFile_and_updateLocale_commands one_folder
                  (open_command "src/main.ts") (JStr "openFile")
                  (JObj [("filePath", JStr "src/main.ts")]) eq_refl eq_refl) eq_refl).
  reflexivity.
Defined.

Lemma unhandled_rejection_sources_witness :
  @workspace_folders no_folder = [] \/
  (exists folder others filePath,
     @workspace_folders no_folder = folder :: others /\
     @URI_joinPath no_folder folder filePath =
       Throw (TypeError "Cannot read properties of undefined (reading 'uri')")) \/
  @getColorThemes no_folder =
    Rejected (TypeError "Cannot read properties of undefined (reading 'uri')") \/
  (exists theme, @setColorTheme no_folder theme "auto" =
     Rejected (TypeError "Cannot read properties of undefined (reading 'uri')")).
Proof.
  apply (@unhandled_rejection_sources no_folder (open_command "src/main.ts")).
  left. reflexivity.
Defined.

Lemma changeTheme_applies_only_that_theme_witness :
  @settingsId one_folder "Visual Studio Light" = "Visual Studio Light".
Proof.
  apply (proj1 (@changeTheme_applies_only_that_theme one_folder "Visual Studio Light")
           "Visual Studio Light" "auto").
  right. left. reflexivity.
Defined.

Lemma openFile_contains_editor_failure_witness :
  settled (@openFile (services ["file:///home/user/project"] false) (JStr "a.ts")) =
    Fulfilled tt /\
  logged (@openFile (services ["file:///home/user/project"] false) (JStr "a.ts")) =
    [OpenFailed (JStr "a.ts") (UserError "cannot open")].
Proof.
  destruct (@openFile_contains_editor_failure (services ["file:///home/user/project"] false)
              "file:///home/user/project" [] (JStr "a.ts") "file:///home/user/project/a.ts"
              eq_refl eq_refl) as (Hs & _ & Hl).
  split; [exact Hs|exact Hl].
Defined.

End MoreScenarios.
